(** * jaxnerf: the coarse-to-fine rendering pipeline of [nerf/models.py]
      and the training objective of [train.py]

    The development embeds [NerfModel.apply], the factory [nerf] and
    [train_step.loss_fn].  Floating-point arrays are read as arrays of real
    numbers.  [apply] is an orchestrator: everything it computes goes
    through [jaxnerf.nerf.model_utils] and [jax.random], so it is embedded
    as a program over the calls it makes, and a handler gives the calls
    their meaning. *)

From Stdlib Require Import String.
From Stdlib Require Import Reals Lra Lia ZArith List Bool.
From Stdlib Require Import Sorting.Sorted Sorting.Permutation.
Import ListNotations.

Local Open Scope R_scope.

(** ** Arrays *)

(** A [jnp.ndarray] of rank [n] holding floats: nested lists of reals. *)
Fixpoint tensor (n : nat) : Type :=
  match n with
  | O => R
  | S m => list (tensor m)
  end.

(** Elementwise application of a scalar function. *)
Fixpoint tmap (f : R -> R) (n : nat) : tensor n -> tensor n :=
  match n with
  | O => f
  | S m => map (tmap f m)
  end.

(** [last_axis f] applies [f] along the last axis, which is how an index
    [x[Ellipsis, ...]] acts on every leading axis. *)
Fixpoint last_axis (f : list R -> list R) (n : nat)
  : tensor (S n) -> tensor (S n) :=
  match n with
  | O => f
  | S m => map (last_axis f m)
  end.

(** [x.shape[-1]]; the arrays are rectangular, so the first entry of each
    leading axis decides. *)
Fixpoint shape_last (n : nat) : tensor (S n) -> nat :=
  match n with
  | O => fun x => length x
  | S m => fun x => match x with
                    | [] => O
                    | y :: _ => shape_last m y
                    end
  end.

(** Python's normalisation of one slice bound against a length. *)
Definition slice_bound (len : nat) (dflt : nat) (i : option Z) : nat :=
  match i with
  | None => dflt
  | Some z =>
      if (z <? 0)%Z then Z.to_nat (Z.max 0 (Z.of_nat len + z))
      else Nat.min len (Z.to_nat z)
  end.

(** [l[lo:hi]] with step one. *)
Definition pyslice {A : Type} (lo hi : option Z) (l : list A) : list A :=
  let len := length l in
  let a := slice_bound len O lo in
  let b := slice_bound len len hi in
  firstn (b - a) (skipn a l).

(** [x[Ellipsis, lo:hi]] on a batch of vectors. *)
Definition slice_last (lo hi : option Z) : tensor 2 -> tensor 2 :=
  last_axis (pyslice lo hi) 1.

(** Elementwise combination of two vectors of one shape. *)
Definition zip_with {A B C : Type} (f : A -> B -> C)
  (l : list A) (r : list B) : list C :=
  map (fun p => f (fst p) (snd p)) (combine l r).

Definition Rsum (l : list R) : R := fold_right Rplus 0 l.

(** [jnp.linalg.norm(v, axis=-1)] of one vector. *)
Definition norm (v : list R) : R := sqrt (Rsum (map (fun x => x * x) v)).

(** [v / jnp.linalg.norm(v, axis=-1, keepdims=True)] along the last axis. *)
Definition unit_last (x : tensor 2) : tensor 2 :=
  last_axis (fun v => map (fun c => c / norm v) v) 1 x.

(** [.5 * (z[Ellipsis, 1:] + z[Ellipsis, :-1])] on one row. *)
Definition midpoints_row (z : list R) : list R :=
  map (Rmult (1 / 2))
      (zip_with Rplus (pyslice (Some 1%Z) None z) (pyslice None (Some (-1)%Z) z)).

Definition midpoints (z : tensor 2) : tensor 2 := last_axis midpoints_row 1 z.

(** ** The calls [apply] makes *)

(** A [jax.random] key. *)
Definition PRNGKey : Type := (Z * Z)%type.

(** The keyword arguments of a [model_utils.MLP] call; [None] is a keyword
    that the call leaves out. *)
Record MLPKwargs : Type := {
  kw_net_depth : option Z;
  kw_net_width : option Z;
  kw_net_depth_condition : option Z;
  kw_net_width_condition : option Z;
  kw_net_activation : option (R -> R);
  kw_skip_layer : option Z;
  kw_num_rgb_channels : option Z;
  kw_num_sigma_channels : option Z
}.

Definition no_kwargs : MLPKwargs :=
  {| kw_net_depth := None; kw_net_width := None;
     kw_net_depth_condition := None; kw_net_width_condition := None;
     kw_net_activation := None; kw_skip_layer := None;
     kw_num_rgb_channels := None; kw_num_sigma_channels := None |}.

(** One call out of [models.py], with its arguments in source order. *)
Inductive Call : Type :=
| random_split (key : PRNGKey)
| sample_along_rays (key : PRNGKey) (rays : tensor 2) (num_samples : Z)
    (near far : R) (randomized lindisp : bool)
| posenc (n : nat) (x : tensor n) (deg : Z)
| MLP (samples : tensor 3) (condition : option (tensor 2)) (kw : MLPKwargs)
| add_gaussian_noise (key : PRNGKey) (raw : tensor 3) (noise_std : R)
    (randomized : bool)
| volumetric_rendering (rgb sigma : tensor 3) (z_vals : tensor 2)
    (dirs : tensor 2) (white_bkgd : bool)
| sample_pdf (key : PRNGKey) (bins weights : tensor 2) (rays : tensor 2)
    (z_vals : tensor 2) (num_samples : Z) (randomized : bool).

(** [(comp_rgb, disp, acc)] for a batch of rays. *)
Definition RenderResult : Type := (tensor 2 * tensor 1 * tensor 1)%type.

(** What a call returns. *)
Definition Reply (c : Call) : Type :=
  match c with
  | random_split _ => (PRNGKey * PRNGKey)%type
  | sample_along_rays _ _ _ _ _ _ _ => (tensor 2 * tensor 3)%type
  | posenc n _ _ => tensor n
  | MLP _ _ _ => (tensor 3 * tensor 3)%type
  | add_gaussian_noise _ _ _ _ => tensor 3
  | volumetric_rendering _ _ _ _ _ => (RenderResult * tensor 2)%type
  | sample_pdf _ _ _ _ _ _ _ => (tensor 2 * tensor 3)%type
  end.

(** Programs over the calls. *)
Inductive Prog (A : Type) : Type :=
| Ret (a : A)
| Do (c : Call) (k : Reply c -> Prog A).

Arguments Ret {A} a.
Arguments Do {A} c k.

Fixpoint bind {A B : Type} (p : Prog A) (f : A -> Prog B) : Prog B :=
  match p with
  | Ret a => f a
  | Do c k => Do c (fun r => bind (k r) f)
  end.

Definition call (c : Call) : Prog (Reply c) := Do c Ret.

Declare Scope prog_scope.
Delimit Scope prog_scope with prog.
Notation "x <- p ;; q" := (bind p (fun x => q))
  (at level 61, p at next level, right associativity) : prog_scope.
Notation "' pat <- p ;; q" := (bind p (fun x => match x with pat => q end))
  (at level 61, pat pattern, p at next level, right associativity) : prog_scope.

(** A handler answers a call, or fails when the callee raises. *)
Definition handler : Type := forall c : Call, option (Reply c).

(** A call together with its answer. *)
Inductive Event : Type :=
| Ev (c : Call) (r : Reply c).

Definition ev_call (e : Event) : Call := match e with Ev c _ => c end.

(** The outcome of a run: the returned value, or the call that raised. *)
Inductive Outcome (A : Type) : Type :=
| Returned (a : A)
| Raised (c : Call).

Arguments Returned {A} a.
Arguments Raised {A} c.

(** [exec h p] runs [p] against [h]: the answered calls in order, and the
    outcome. *)
Fixpoint exec {A : Type} (h : handler) (p : Prog A) : list Event * Outcome A :=
  match p with
  | Ret a => ([], Returned a)
  | Do c k =>
      match h c with
      | None => ([], Raised c)
      | Some r => let (t, o) := exec h (k r) in (Ev c r :: t, o)
      end
  end.

Definition events {A : Type} (h : handler) (p : Prog A) : list Event :=
  fst (exec h p).

Definition run {A : Type} (h : handler) (p : Prog A) : Outcome A :=
  snd (exec h p).

(** ** [nerf/models.py] *)

Module NerfModel.

(** The keyword arguments of [apply], which [NerfModel.partial] fixes.  The
    activations act elementwise. *)
Record Hyper : Type := {
  num_coarse_samples : Z;
  num_fine_samples : Z;
  use_viewdirs : bool;
  near : R;
  far : R;
  noise_std : R;
  net_depth : Z;
  net_width : Z;
  net_depth_condition : Z;
  net_width_condition : Z;
  net_activation : R -> R;
  skip_layer : Z;
  num_rgb_channels : Z;
  num_sigma_channels : Z;
  randomized : bool;
  white_bkgd : bool;
  deg_point : Z;
  deg_view : Z;
  lindisp : bool;
  rgb_activation : R -> R;
  sigma_activation : R -> R
}.

(** The eight architecture keywords as the coarse call spells them out. *)
Definition architecture (hp : Hyper) : MLPKwargs :=
  {| kw_net_depth := Some (net_depth hp);
     kw_net_width := Some (net_width hp);
     kw_net_depth_condition := Some (net_depth_condition hp);
     kw_net_width_condition := Some (net_width_condition hp);
     kw_net_activation := Some (net_activation hp);
     kw_skip_layer := Some (skip_layer hp);
     kw_num_rgb_channels := Some (num_rgb_channels hp);
     kw_num_sigma_channels := Some (num_sigma_channels hp) |}.

(** The rays without a trailing view direction: [rays[Ellipsis, :-3]] when
    the width exceeds 6. *)
Definition ray_part (rays : tensor 2) : tensor 2 :=
  if (6 <? shape_last 1 rays)%nat
  then slice_last None (Some (-3)%Z) rays
  else rays.

(** The view directions [apply] extracts from the ray array. *)
Definition view_part (rays : tensor 2) : tensor 2 :=
  if (6 <? shape_last 1 rays)%nat
  then slice_last (Some (-3)%Z) None rays
  else slice_last (Some 3%Z) (Some 6%Z) rays.

Local Open Scope prog_scope.

Definition apply (hp : Hyper) (rng_0 rng_1 : PRNGKey) (rays : tensor 2)
  : Prog (list RenderResult) :=
  (* Extract viewdirs from the ray array *)
  let viewdirs := view_part rays in
  let rays := ray_part rays in
  (* Stratified sampling along rays *)
  '(key, rng_0) <- call (random_split rng_0);;
  '(z_vals, samples) <-
    call (sample_along_rays key rays (num_coarse_samples hp) (near hp)
            (far hp) (randomized hp) (lindisp hp));;
  samples <- call (posenc 3 samples (deg_point hp));;
  (* Point attribute predictions *)
  '(viewdirs, (raw_rgb, raw_sigma)) <-
    (if use_viewdirs hp then
       viewdirs <- call (posenc 2 (unit_last viewdirs) (deg_view hp));;
       raw <- call (MLP samples (Some viewdirs) (architecture hp));;
       Ret ((viewdirs, raw) : tensor 2 * (tensor 3 * tensor 3))
     else
       raw <- call (MLP samples None (architecture hp));;
       Ret ((viewdirs, raw) : tensor 2 * (tensor 3 * tensor 3)));;
  (* Add noises to regularize the density predictions if needed *)
  '(key, rng_0) <- call (random_split rng_0);;
  raw_sigma <-
    call (add_gaussian_noise key raw_sigma (noise_std hp) (randomized hp));;
  let rgb := tmap (rgb_activation hp) 3 raw_rgb in
  let sigma := tmap (sigma_activation hp) 3 raw_sigma in
  (* Volumetric rendering. *)
  '(comp_rgb, disp, acc, weights) <-
    call (volumetric_rendering rgb sigma z_vals
            (slice_last (Some 3%Z) (Some 6%Z) rays) (white_bkgd hp));;
  let ret := [(comp_rgb, disp, acc)] in
  (* Hierarchical sampling based on coarse predictions *)
  if (0 <? num_fine_samples hp)%Z then
    let z_vals_mid := midpoints z_vals in
    '(key, rng_1) <- call (random_split rng_1);;
    '(z_vals, samples) <-
      call (sample_pdf key z_vals_mid
              (slice_last (Some 1%Z) (Some (-1)%Z) weights) rays z_vals
              (num_fine_samples hp) (randomized hp));;
    samples <- call (posenc 3 samples (deg_point hp));;
    '(raw_rgb, raw_sigma) <-
      (if use_viewdirs hp
       then (call (MLP samples (Some viewdirs) no_kwargs)
             : Prog (tensor 3 * tensor 3))
       else call (MLP samples None no_kwargs));;
    '(key, rng_1) <- call (random_split rng_1);;
    raw_sigma <-
      call (add_gaussian_noise key raw_sigma (noise_std hp) (randomized hp));;
    let rgb := tmap (rgb_activation hp) 3 raw_rgb in
    let sigma := tmap (sigma_activation hp) 3 raw_sigma in
    '(comp_rgb, disp, acc, unused_weights) <-
      call (volumetric_rendering rgb sigma z_vals
              (slice_last (Some 3%Z) (Some 6%Z) rays) (white_bkgd hp));;
    Ret (ret ++ [(comp_rgb, disp, acc)])
  else
    Ret ret.

End NerfModel.

(** The flags [nerf] reads off [args]. *)
Module FLAGS.

Record t : Type := {
  deg_point : Z;
  deg_view : Z;
  num_coarse_samples : Z;
  num_fine_samples : Z;
  use_viewdirs : bool;
  near : R;
  far : R;
  noise_std : R;
  randomized : bool;
  white_bkgd : bool;
  net_depth : Z;
  net_width : Z;
  net_depth_condition : Z;
  net_width_condition : Z;
  skip_layer : Z;
  num_rgb_channels : Z;
  num_sigma_channels : Z;
  lindisp : bool;
  net_activation : string;
  rgb_activation : string;
  sigma_activation : string
}.

End FLAGS.

(** What [nerf] raises. *)
Inductive Exn : Type :=
| AttributeError (name : string)
| NotImplementedError (msg : string).

Definition Rltb (x y : R) : bool := if Rlt_dec x y then true else false.

(** [jnp.linspace(start, stop, num)]. *)
Definition linspace (start stop : R) (num : nat) : list R :=
  map (fun i => start + INR i * ((stop - start) / INR (num - 1))) (seq 0 num).

(** The inputs on which [nerf] probes the activations:
    [x = exp(linspace(-90, 90, 1024))], then [concatenate([-x[::-1], x])]. *)
Definition probe_inputs : list R :=
  let x := map exp (linspace (-90) 90 1024) in
  map Ropp (rev x) ++ x.

(** [jnp.any(rgb < 0) or jnp.any(rgb > 1)]. *)
Definition rgb_out_of_range (rgb : list R) : bool :=
  existsb (fun y => Rltb y 0) rgb || existsb (fun y => Rltb 1 y) rgb.

(** [jnp.any(sigma < 0)]. *)
Definition sigma_negative (sigma : list R) : bool :=
  existsb (fun y => Rltb y 0) sigma.

Section Factory.

(** The attributes of [flax.nn] that [getattr] can find. *)
Variable nn : string -> option (R -> R).

Definition getattr (name : string) : Exn + (R -> R) :=
  match nn name with
  | Some f => inr f
  | None => inl (AttributeError name)
  end.

(** [nerf(key, args)] up to the configured [model_fn]; the initialisation
    of the network parameters that follows belongs to flax. *)
Definition nerf (key : PRNGKey) (args : FLAGS.t) : Exn + NerfModel.Hyper :=
  match getattr (FLAGS.net_activation args) with
  | inl e => inl e
  | inr net_activation =>
  match getattr (FLAGS.rgb_activation args) with
  | inl e => inl e
  | inr rgb_activation =>
  match getattr (FLAGS.sigma_activation args) with
  | inl e => inl e
  | inr sigma_activation =>
      let x := probe_inputs in
      let rgb := map rgb_activation x in
      if rgb_out_of_range rgb then
        inl (NotImplementedError
               ("Choice of rgb_activation `" ++ FLAGS.rgb_activation args
                ++ "` produces colors outside of [0, 1]"))
      else
        let sigma := map sigma_activation x in
        if sigma_negative sigma then
          inl (NotImplementedError
                 ("Choice of sigma_activation `" ++ FLAGS.sigma_activation args
                  ++ "` produces negative densities"))
        else
          inr {| NerfModel.num_coarse_samples := FLAGS.num_coarse_samples args;
                 NerfModel.num_fine_samples := FLAGS.num_fine_samples args;
                 NerfModel.use_viewdirs := FLAGS.use_viewdirs args;
                 NerfModel.near := FLAGS.near args;
                 NerfModel.far := FLAGS.far args;
                 NerfModel.noise_std := FLAGS.noise_std args;
                 NerfModel.net_depth := FLAGS.net_depth args;
                 NerfModel.net_width := FLAGS.net_width args;
                 NerfModel.net_depth_condition := FLAGS.net_depth_condition args;
                 NerfModel.net_width_condition := FLAGS.net_width_condition args;
                 NerfModel.net_activation := net_activation;
                 NerfModel.skip_layer := FLAGS.skip_layer args;
                 NerfModel.num_rgb_channels := FLAGS.num_rgb_channels args;
                 NerfModel.num_sigma_channels := FLAGS.num_sigma_channels args;
                 NerfModel.randomized := FLAGS.randomized args;
                 NerfModel.white_bkgd := FLAGS.white_bkgd args;
                 NerfModel.deg_point := FLAGS.deg_point args;
                 NerfModel.deg_view := FLAGS.deg_view args;
                 NerfModel.lindisp := FLAGS.lindisp args;
                 NerfModel.rgb_activation := rgb_activation;
                 NerfModel.sigma_activation := sigma_activation |}
  end end end.

End Factory.

(** ** [train.py] *)

Module Train.

Record Stats : Type := { loss : R; psnr : R }.

(** [x.mean()] over every entry of a batch of vectors. *)
Definition mean (x : tensor 2) : R :=
  Rsum (concat x) / INR (length (concat x)).

(** [(rgb - pixels) ** 2] for arrays of one shape. *)
Definition squared_error (rgb pixels : tensor 2) : tensor 2 :=
  zip_with (zip_with (fun a b => (a - b) ^ 2)) rgb pixels.

(** [((rgb - batch["pixels"][Ellipsis, :3])**2).mean()]. *)
Definition mse (rgb pixels : tensor 2) : R :=
  mean (squared_error rgb (slice_last None (Some 3%Z) pixels)).

Inductive Error : Type :=
| ValueError (msg : string).

Section LossFn.

(** The ray structure of a batch, and [utils.compute_psnr]. *)
Variable Rays : Type.
Variable compute_psnr : R -> R.

Record Batch : Type := { rays : Rays; pixels : tensor 2 }.

Definition empty_result : RenderResult := ([], [], []).

(** [loss_fn] inside [train_step], for the model called on the batch; the
    model state that flax threads through is left out.  The first component
    of the result is the scalar that [jax.value_and_grad] differentiates. *)
Definition loss_fn (key_0 key_1 : PRNGKey) (batch : Batch)
  (model : PRNGKey -> PRNGKey -> Rays -> list RenderResult)
  : Error + (R * list Stats) :=
  let ret := model key_0 key_1 (rays batch) in
  if negb ((length ret =? 1)%nat || (length ret =? 2)%nat) then
    inl (ValueError
           ("ret should contain either 1 set of output (coarse only), or 2 sets"
            ++ "of output (coarse as ret[0] and fine as ret[1])."))
  else
    (* The main prediction is always at the end of the ret list. *)
    let '(rgb, unused_disp, unused_acc) := last ret empty_result in
    let loss := mse rgb (pixels batch) in
    let psnr := compute_psnr loss in
    let stats := [ {| loss := loss; psnr := psnr |} ] in
    let '(stats, loss_c) :=
      if (1 <? length ret)%nat then
        let '(rgb_c, unused_disp_c, unused_acc_c) := nth 0 ret empty_result in
        let loss_c := mse rgb_c (pixels batch) in
        let psnr_c := compute_psnr loss_c in
        (stats ++ [ {| loss := loss_c; psnr := psnr_c |} ], loss_c)
      else (stats, 0) in
    inr (loss + loss_c, stats).

End LossFn.

End Train.

(** ** [model_utils], from the specification *)

(** Modelled from the spec: what the components of sections 4.1 to 4.5
    rest on and no statement below looks into: the random source, the
    learned network (section 2, an opaque capability), the encoder and the
    inverse-CDF draw.  Random draws are indexed by the position they fill. *)
Record Externals : Type := {
  split : PRNGKey -> PRNGKey * PRNGKey;
  uniform : PRNGKey -> list nat -> R;
  normal : PRNGKey -> list nat -> R;
  encode : forall n : nat, tensor n -> Z -> tensor n;
  network : tensor 3 -> option (tensor 2) -> MLPKwargs -> tensor 3 * tensor 3;
  inverse_cdf : option PRNGKey -> nat -> list R -> list R -> Z -> list R
}.

(** [f] applied to every entry together with its index. *)
Definition imap {A B : Type} (f : nat -> A -> B) (l : list A) : list B :=
  zip_with f (seq 0 (length l)) l.

(** All results of [f] over [l], or nothing as soon as one is missing. *)
Fixpoint traverse {A B : Type} (f : A -> option B) (l : list A)
  : option (list B) :=
  match l with
  | [] => Some []
  | a :: r =>
      match f a with
      | None => None
      | Some b =>
          match traverse f r with
          | None => None
          | Some bs => Some (b :: bs)
          end
      end
  end.

Module model_utils.

(** Modelled from the spec: the guard of section 4.2 and 7 on division; a
    zero divisor is rejected instead of producing an infinity or a NaN. *)
Definition checked_div (a b : R) : option R :=
  if Req_dec_T b 0 then None else Some (a / b).

(** Modelled from the spec: [model_utils.sample_along_rays] is missing;
    section 4.2 maps a position [u] of [[0,1]] to a depth, linearly in depth
    or linearly in disparity. *)
Definition depth_at (near far : R) (lindisp : bool) (u : R) : option R :=
  if lindisp then
    match checked_div 1 near, checked_div 1 far with
    | Some inv_near, Some inv_far =>
        checked_div 1 (inv_near * (1 - u) + inv_far * u)
    | _, _ => None
    end
  else Some (near * (1 - u) + far * u).

(** Modelled from the spec: section 4.2, the position drawn in bin [i] of
    [num] equal bins of [[0,1]]: the bin edge [i/num] moved by [offset] bin
    widths. *)
Definition bin_position (num : nat) (offset : R) (i : nat) : R :=
  (INR i + offset) / INR num.

(** Modelled from the spec: section 4.2, the depths of ray number [b]: a
    uniform offset inside each bin when randomized, the bin midpoint
    otherwise. *)
Definition ray_depths (ext : Externals) (key : PRNGKey) (b : nat)
  (num_samples : Z) (near far : R) (randomized lindisp : bool)
  : option (list R) :=
  let num := Z.to_nat num_samples in
  traverse
    (fun i =>
       let offset := if randomized then uniform ext key [b; i] else 1 / 2 in
       depth_at near far lindisp (bin_position num offset i))
    (seq 0 num).

(** Modelled from the spec: section 3, the points [origin + t * direction]
    of one ray. *)
Definition cast_ray (ray : list R) (z : list R) : list (list R) :=
  let origin := pyslice (Some 0%Z) (Some 3%Z) ray in
  let direction := pyslice (Some 3%Z) (Some 6%Z) ray in
  map (fun t => zip_with (fun o d => o + t * d) origin direction) z.

(** Modelled from the spec: [model_utils.sample_along_rays] is missing;
    section 4.2, the RaySampler on a batch. *)
Definition sample_along_rays (ext : Externals) (key : PRNGKey)
  (rays : tensor 2) (num_samples : Z) (near far : R)
  (randomized lindisp : bool) : option (tensor 2 * tensor 3) :=
  match traverse
          (fun b => ray_depths ext key b num_samples near far randomized lindisp)
          (seq 0 (length rays)) with
  | None => None
  | Some z_vals => Some (z_vals, zip_with cast_ray rays z_vals)
  end.

(** Modelled from the spec: [model_utils.add_gaussian_noise] is missing;
    section 4.5, the NoiseRegularizer. *)
Definition add_gaussian_noise (ext : Externals) (key : PRNGKey)
  (raw : tensor 3) (noise_std : R) (randomized : bool) : tensor 3 :=
  if randomized && Rltb 0 noise_std then
    imap (fun b => imap (fun i => imap (fun j x =>
      x + normal ext key [b; i; j] * noise_std))) raw
  else raw.

(** Modelled from the spec: section 4.3 step 1 and section 9 leave the
    length of the last interval to a documented large sentinel. *)
Definition last_interval : R := 10 ^ 10.

(** Modelled from the spec: section 4.3 step 7, the guard of the disparity. *)
Definition epsilon : R := / 10 ^ 10.

(** Modelled from the spec: section 4.3 step 1, the interval lengths. *)
Fixpoint interval_lengths (t : list R) : list R :=
  match t with
  | [] => []
  | a :: r =>
      match r with
      | [] => [last_interval]
      | b :: _ => (b - a) :: interval_lengths r
      end
  end.

(** Modelled from the spec: section 4.3 steps 2 and 3, the opacity of each
    sample. *)
Definition alphas (sigma : list R) (t : list R) (dir : list R) : list R :=
  zip_with (fun s d => 1 - exp (- (s * (d * norm dir))))
           sigma (interval_lengths t).

(** Modelled from the spec: section 4.3 steps 4 and 5, [w_i = T_i * alpha_i]
    with the transmittance [T] accumulated front to back. *)
Fixpoint weights_from (T : R) (alpha : list R) : list R :=
  match alpha with
  | [] => []
  | a :: r => T * a :: weights_from (T * (1 - a)) r
  end.

(** Modelled from the spec: section 4.3 step 5, the weights of one ray. *)
Definition compositing_weights (sigma t dir : list R) : list R :=
  weights_from 1 (alphas sigma t dir).

(** Modelled from the spec: section 4.3 step 6, one channel of the
    composite color. *)
Definition composite_channel (w : list R) (rgb : list (list R))
  (white_bkgd : bool) (j : nat) : R :=
  Rsum (zip_with (fun wi c => wi * nth j c 0) w rgb)
  + (if white_bkgd then (1 - Rsum w) * 1 else 0).

(** Modelled from the spec: section 4.3 step 7, with zero as the fallback. *)
Definition disparity (w t : list R) : R :=
  if Rlt_dec 0 (Rsum w)
  then 1 / Rmax epsilon (Rsum (zip_with Rmult w t) / Rsum w)
  else 0.

(** Modelled from the spec: [model_utils.volumetric_rendering] is missing;
    section 4.3, the VolumetricRenderer on one ray: color, disparity,
    accumulated opacity and the weights. *)
Definition render_ray (rgb : list (list R)) (sigma : list R) (t : list R)
  (dir : list R) (white_bkgd : bool) : list R * R * R * list R :=
  let w := compositing_weights sigma t dir in
  (map (composite_channel w rgb white_bkgd) (seq 0 3), disparity w t,
   Rsum w, w).

(** Modelled from the spec: [model_utils.volumetric_rendering] on a batch,
    ray by ray; the density of a sample is the single entry of its
    [raw_sigma] row. *)
Definition volumetric_rendering (rgb sigma : tensor 3) (z_vals dirs : tensor 2)
  (white_bkgd : bool) : RenderResult * tensor 2 :=
  let rows :=
    map (fun p =>
           match p with
           | (c, s, t, d) => render_ray c (map (hd 0) s) t d white_bkgd
           end)
        (combine (combine (combine rgb sigma) z_vals) dirs) in
  (map (fun r => fst (fst (fst r))) rows,
   map (fun r => snd (fst (fst r))) rows,
   map (fun r => snd (fst r)) rows,
   map (fun r => snd r) rows).

(** Modelled from the spec: section 4.4 step 6, ascending order. *)
Fixpoint insert (x : R) (l : list R) : list R :=
  match l with
  | [] => [x]
  | y :: r => if Rle_dec x y then x :: l else y :: insert x r
  end.

(** Modelled from the spec: section 4.4 step 6, sorting by insertion. *)
Definition sort (l : list R) : list R := fold_right insert [] l.

(** Modelled from the spec: [model_utils.sample_pdf] is missing; section
    4.4, the ImportanceResampler on ray number [b].  Steps 2 to 5 are the
    draw [inverse_cdf], which sees the key only when randomized; step 6
    merges the draw with the coarse depths and sorts. *)
Definition resample_ray (ext : Externals) (key : PRNGKey) (b : nat)
  (bins weights z : list R) (num_samples : Z) (randomized : bool) : list R :=
  let z_samples :=
    inverse_cdf ext (if randomized then Some key else None) b bins weights
      num_samples in
  sort (z ++ z_samples).

(** Modelled from the spec: [model_utils.sample_pdf] on a batch, ray by
    ray, with the points of the merged depths. *)
Definition sample_pdf (ext : Externals) (key : PRNGKey)
  (bins weights rays z_vals : tensor 2) (num_samples : Z) (randomized : bool)
  : tensor 2 * tensor 3 :=
  let merged :=
    imap (fun b p =>
            match p with
            | (bs, ws, z) => resample_ray ext key b bs ws z num_samples randomized
            end)
         (combine (combine bins weights) z_vals) in
  (merged, zip_with cast_ray rays merged).

End model_utils.

(** Modelled from the spec: [model_utils] answers the calls of [apply] as
    sections 4.1 to 4.5 describe the components; only the sampler can
    reject its input.  The failure modes of the other components are in
    [guarded_handler] below. *)
Definition spec_handler (ext : Externals) : handler :=
  fun c =>
    match c as c' return option (Reply c') with
    | random_split key => Some (split ext key)
    | sample_along_rays key rays n near far randomized lindisp =>
        model_utils.sample_along_rays ext key rays n near far randomized lindisp
    | posenc n x deg => Some (encode ext n x deg)
    | MLP samples condition kw => Some (network ext samples condition kw)
    | add_gaussian_noise key raw noise_std randomized =>
        Some (model_utils.add_gaussian_noise ext key raw noise_std randomized)
    | volumetric_rendering rgb sigma z_vals dirs white_bkgd =>
        Some (model_utils.volumetric_rendering rgb sigma z_vals dirs white_bkgd)
    | sample_pdf key bins weights rays z_vals n randomized =>
        Some (model_utils.sample_pdf ext key bins weights rays z_vals n
                randomized)
    end.

(** ** The failure modes of the components *)

(** Modelled from the spec: section 4.3 step 7 with both of its divisions
    behind the guard of section 7, which rejects a zero divisor instead of
    producing an infinity or a NaN. *)
Definition guarded_disparity (w t : list R) : option R :=
  if Rlt_dec 0 (Rsum w) then
    match model_utils.checked_div (Rsum (zip_with Rmult w t)) (Rsum w) with
    | Some depth => model_utils.checked_div 1 (Rmax model_utils.epsilon depth)
    | None => None
    end
  else Some 0.

(** Modelled from the spec: section 4.3 on one ray, rejected where the
    disparity would divide by zero. *)
Definition guarded_render_ray (rgb : list (list R)) (sigma t dir : list R)
  (white_bkgd : bool) : option (list R * R * R * list R) :=
  let w := model_utils.compositing_weights sigma t dir in
  match guarded_disparity w t with
  | Some disp =>
      Some (map (model_utils.composite_channel w rgb white_bkgd) (seq 0 3),
            disp, Rsum w, w)
  | None => None
  end.

(** Modelled from the spec: section 4.3 on a batch, rejected as soon as one
    ray is. *)
Definition guarded_volumetric_rendering (rgb sigma : tensor 3)
  (z_vals dirs : tensor 2) (white_bkgd : bool)
  : option (RenderResult * tensor 2) :=
  match traverse
          (fun p =>
             match p with
             | (c, s, t, d) => guarded_render_ray c (map (hd 0) s) t d white_bkgd
             end)
          (combine (combine (combine rgb sigma) z_vals) dirs) with
  | Some rows =>
      Some (map (fun r => fst (fst (fst r))) rows,
            map (fun r => snd (fst (fst r))) rows,
            map (fun r => snd (fst r)) rows,
            map (fun r => snd r) rows)
  | None => None
  end.

(** Modelled from the spec: section 7, the number of samples on each ray of
    a batch of per-sample values. *)
Definition sample_counts (x : tensor 3) : list nat :=
  map (@length (list R)) x.

Definition same_sample_counts (x y : tensor 3) : bool :=
  if list_eq_dec Nat.eq_dec (sample_counts x) (sample_counts y)
  then true else false.


(** Modelled from the spec: the components with the failure modes the
    specification gives them.  The encoder rejects a negative number of
    frequencies (section 4.1); a network answer whose sample counts differ
    from those of the points it was given fails at once (section 7); the
    divisions of the sampler and of the renderer are behind the guard
    (sections 4.2, 4.3 and 7).  The specification names no failure of the
    key split, of the noise or of the resampler, whose floor (section 4.4
    step 2) keeps it valid on weights that are all zero. *)
Definition guarded_handler (ext : Externals) : handler :=
  fun c =>
    match c as c' return option (Reply c') with
    | random_split key => Some (split ext key)
    | sample_along_rays key rays n near far randomized lindisp =>
        model_utils.sample_along_rays ext key rays n near far randomized lindisp
    | posenc n x deg =>
        if (deg <? 0)%Z then None else Some (encode ext n x deg)
    | MLP samples condition kw =>
        let raw := network ext samples condition kw in
        if same_sample_counts (fst raw) samples
           && same_sample_counts (snd raw) samples
        then Some raw else None
    | add_gaussian_noise key raw noise_std randomized =>
        Some (model_utils.add_gaussian_noise ext key raw noise_std randomized)
    | volumetric_rendering rgb sigma z_vals dirs white_bkgd =>
        guarded_volumetric_rendering rgb sigma z_vals dirs white_bkgd
    | sample_pdf key bins weights rays z_vals n randomized =>
        Some (model_utils.sample_pdf ext key bins weights rays z_vals n
                randomized)
    end.

(** ** Observing a run *)

(** The entries of a log that [f] recognises, in order. *)
Fixpoint pick {B : Type} (f : Event -> option B) (l : list Event) : list B :=
  match l with
  | [] => []
  | e :: r =>
      match f e with
      | Some b => b :: pick f r
      | None => pick f r
      end
  end.

(** The keywords of a network call. *)
Definition mlp_kwargs (e : Event) : option MLPKwargs :=
  match ev_call e with
  | MLP _ _ kw => Some kw
  | _ => None
  end.



(** The depths the ray sampler answered. *)
Definition sampler_depths (e : Event) : option (tensor 2) :=
  match e with
  | Ev (sample_along_rays _ _ _ _ _ _ _) r => Some (fst r)
  | Ev _ _ => None
  end.


(** The [(comp_rgb, disp, acc)] a rendering call answered. *)
Definition rendered (e : Event) : option RenderResult :=
  match e with
  | Ev (volumetric_rendering _ _ _ _ _) r => Some (fst r)
  | Ev _ _ => None
  end.

(** The weights a rendering call answered. *)
Definition rendered_weights (e : Event) : option (tensor 2) :=
  match e with
  | Ev (volumetric_rendering _ _ _ _ _) r => Some (snd r)
  | Ev _ _ => None
  end.

(** The arguments of a resampler call, the key apart. *)
Definition resampler_args (e : Event)
  : option (tensor 2 * tensor 2 * tensor 2 * tensor 2 * Z * bool) :=
  match ev_call e with
  | sample_pdf _ bins weights rays z_vals n randomized =>
      Some (bins, weights, rays, z_vals, n, randomized)
  | _ => None
  end.

(** The depths a resampler call answered. *)
Definition resampled_depths (e : Event) : option (tensor 2) :=
  match e with
  | Ev (sample_pdf _ _ _ _ _ _ _) r => Some (fst r)
  | Ev _ _ => None
  end.


(** The color of a render result. *)
Definition color (r : RenderResult) : tensor 2 := fst (fst r).

(** The depths handed to a rendering call. *)
Definition rendering_depths (e : Event) : option (tensor 2) :=
  match ev_call e with
  | volumetric_rendering _ _ z_vals _ _ => Some z_vals
  | _ => None
  end.

(** The [utils.Stats] that [loss_fn] records for one prediction. *)
Definition stats_of (compute_psnr : R -> R) (pixels : tensor 2)
  (r : RenderResult) : Train.Stats :=
  {| Train.loss := Train.mse (color r) pixels;
     Train.psnr := compute_psnr (Train.mse (color r) pixels) |}.

(** [wp h p Q]: the log and the outcome of running [p] against [h]
    satisfy [Q]; it follows the program call by call. *)
Fixpoint wp {A : Type} (h : handler) (p : Prog A)
  (Q : list Event -> Outcome A -> Prop) : Prop :=
  match p with
  | Ret a => Q [] (Returned a)
  | Do c k =>
      match h c with
      | None => Q [] (Raised c)
      | Some r => wp h (k r) (fun t o => Q (Ev c r :: t) o)
      end
  end.

(** The value a run returned, if it returned. *)
Definition returned {A : Type} (o : Outcome A) : option A :=
  match o with
  | Returned a => Some a
  | Raised _ => None
  end.

(** The returned value alone, call by call. *)
Fixpoint result {A : Type} (h : handler) (p : Prog A) : option A :=
  match p with
  | Ret a => Some a
  | Do c k =>
      match h c with
      | None => None
      | Some r => result h (k r)
      end
  end.

(** The configuration [hp] with another [noise_std]. *)
Definition with_noise_std (hp : NerfModel.Hyper) (s : R) : NerfModel.Hyper :=
  {| NerfModel.num_coarse_samples := NerfModel.num_coarse_samples hp;
     NerfModel.num_fine_samples := NerfModel.num_fine_samples hp;
     NerfModel.use_viewdirs := NerfModel.use_viewdirs hp;
     NerfModel.near := NerfModel.near hp;
     NerfModel.far := NerfModel.far hp;
     NerfModel.noise_std := s;
     NerfModel.net_depth := NerfModel.net_depth hp;
     NerfModel.net_width := NerfModel.net_width hp;
     NerfModel.net_depth_condition := NerfModel.net_depth_condition hp;
     NerfModel.net_width_condition := NerfModel.net_width_condition hp;
     NerfModel.net_activation := NerfModel.net_activation hp;
     NerfModel.skip_layer := NerfModel.skip_layer hp;
     NerfModel.num_rgb_channels := NerfModel.num_rgb_channels hp;
     NerfModel.num_sigma_channels := NerfModel.num_sigma_channels hp;
     NerfModel.randomized := NerfModel.randomized hp;
     NerfModel.white_bkgd := NerfModel.white_bkgd hp;
     NerfModel.deg_point := NerfModel.deg_point hp;
     NerfModel.deg_view := NerfModel.deg_view hp;
     NerfModel.lindisp := NerfModel.lindisp hp;
     NerfModel.rgb_activation := NerfModel.rgb_activation hp;
     NerfModel.sigma_activation := NerfModel.sigma_activation hp |}.




(** ** Ranges *)

Definition unit_interval (x : R) : Prop := 0 <= x <= 1.

(** Some probed input sends the color activation outside [[0,1]] or the
    density activation below 0. *)
Definition out_of_range (f_rgb f_sigma : R -> R) : Prop :=
  (exists x, In x probe_inputs /\ (f_rgb x < 0 \/ 1 < f_rgb x))
  \/ (exists x, In x probe_inputs /\ f_sigma x < 0).

(** ** Sample values *)

(** Externals for worked examples: keys split by doubling, every uniform
    draw a quarter, no noise, the identity encoder, a network that echoes
    its input, and a resampler that returns the bins. *)
Definition sample_ext : Externals :=
  {| split := fun k => ((fst k, 2 * snd k)%Z, (fst k, 2 * snd k + 1)%Z);
     uniform := fun _ _ => 1 / 4;
     normal := fun _ _ => 0;
     encode := fun _ x _ => x;
     network := fun samples _ _ => (samples, samples);
     inverse_cdf := fun _ _ bins _ _ => bins |}.

(** A configuration away from the defaults of the upstream network:
    four layers of width 128, 64 coarse and 128 fine samples. *)
Definition sample_hyper : NerfModel.Hyper :=
  {| NerfModel.num_coarse_samples := 64;
     NerfModel.num_fine_samples := 128;
     NerfModel.use_viewdirs := true;
     NerfModel.near := 2;
     NerfModel.far := 6;
     NerfModel.noise_std := 0;
     NerfModel.net_depth := 4;
     NerfModel.net_width := 128;
     NerfModel.net_depth_condition := 1;
     NerfModel.net_width_condition := 64;
     NerfModel.net_activation := fun x => Rmax 0 x;
     NerfModel.skip_layer := 2;
     NerfModel.num_rgb_channels := 3;
     NerfModel.num_sigma_channels := 1;
     NerfModel.randomized := false;
     NerfModel.white_bkgd := true;
     NerfModel.deg_point := 10;
     NerfModel.deg_view := 4;
     NerfModel.lindisp := false;
     NerfModel.rgb_activation := fun x => / (1 + exp (- x));
     NerfModel.sigma_activation := fun x => Rmax 0 x |}.

(** One ray from the origin along the third axis, and the same ray with a
    separate view direction appended. *)
Definition sample_rays : tensor 2 := [[0; 0; 0; 0; 0; 2]].

Definition sample_rays_ndc : tensor 2 := [[0; 0; 0; 0; 0; 2; 0; 3; 4]].

(** A [flax.nn] with two activations, and flags that choose them. *)
Definition sample_nn (name : string) : option (R -> R) :=
  if String.eqb name "relu" then Some (fun x => Rmax 0 x)
  else if String.eqb name "sigmoid" then Some (fun x => / (1 + exp (- x)))
  else None.

Definition sample_flags : FLAGS.t :=
  {| FLAGS.deg_point := 10;
     FLAGS.deg_view := 4;
     FLAGS.num_coarse_samples := 64;
     FLAGS.num_fine_samples := 128;
     FLAGS.use_viewdirs := true;
     FLAGS.near := 2;
     FLAGS.far := 6;
     FLAGS.noise_std := 0;
     FLAGS.randomized := true;
     FLAGS.white_bkgd := true;
     FLAGS.net_depth := 8;
     FLAGS.net_width := 256;
     FLAGS.net_depth_condition := 1;
     FLAGS.net_width_condition := 128;
     FLAGS.skip_layer := 4;
     FLAGS.num_rgb_channels := 3;
     FLAGS.num_sigma_channels := 1;
     FLAGS.lindisp := false;
     FLAGS.net_activation := "relu";
     FLAGS.rgb_activation := "sigmoid";
     FLAGS.sigma_activation := "relu" |}.

(** ** Further observations of a run *)

(** The key handed to [random.split], and the pair it answered. *)
Definition split_arg (e : Event) : option PRNGKey :=
  match ev_call e with
  | random_split key => Some key
  | _ => None
  end.

Definition split_reply (e : Event) : option (PRNGKey * PRNGKey) :=
  match e with
  | Ev (random_split _) r => Some r
  | Ev _ _ => None
  end.

(** The keys handed to the ray sampler, the noise regularizer and the
    resampler. *)
Definition sampler_key (e : Event) : option PRNGKey :=
  match ev_call e with
  | sample_along_rays key _ _ _ _ _ _ => Some key
  | _ => None
  end.

Definition noise_key (e : Event) : option PRNGKey :=
  match ev_call e with
  | add_gaussian_noise key _ _ _ => Some key
  | _ => None
  end.

Definition resampler_key (e : Event) : option PRNGKey :=
  match ev_call e with
  | sample_pdf key _ _ _ _ _ _ => Some key
  | _ => None
  end.

(** The points the ray sampler and the resampler answered. *)
Definition sampler_points (e : Event) : option (tensor 3) :=
  match e with
  | Ev (sample_along_rays _ _ _ _ _ _ _) r => Some (snd r)
  | Ev _ _ => None
  end.

Definition resampled_points (e : Event) : option (tensor 3) :=
  match e with
  | Ev (sample_pdf _ _ _ _ _ _ _) r => Some (snd r)
  | Ev _ _ => None
  end.

(** An encoding of sample points: the points and the degree. *)
Definition encoded_points (e : Event) : option (tensor 3 * Z) :=
  match ev_call e with
  | posenc 3 x deg => Some (x, deg)
  | _ => None
  end.

(** What an encoding of sample points answered. *)
Definition points_encoding (e : Event) : option (tensor 3) :=
  match e with
  | Ev (posenc 3 _ _) r => Some r
  | Ev _ _ => None
  end.

(** The samples handed to a network call, and what the call answered. *)
Definition mlp_samples (e : Event) : option (tensor 3) :=
  match ev_call e with
  | MLP samples _ _ => Some samples
  | _ => None
  end.

Definition mlp_reply (e : Event) : option (tensor 3 * tensor 3) :=
  match e with
  | Ev (MLP _ _ _) r => Some r
  | Ev _ _ => None
  end.

(** The raw densities, deviation and mode handed to the noise regularizer,
    and what it answered. *)
Definition noise_args (e : Event) : option (tensor 3 * R * bool) :=
  match ev_call e with
  | add_gaussian_noise _ raw noise_std randomized =>
      Some (raw, noise_std, randomized)
  | _ => None
  end.

Definition noise_reply (e : Event) : option (tensor 3) :=
  match e with
  | Ev (add_gaussian_noise _ _ _ _) r => Some r
  | Ev _ _ => None
  end.

(** The colors, densities and background switch of a rendering call. *)
Definition rendering_inputs (e : Event) : option (tensor 3 * tensor 3 * bool) :=
  match ev_call e with
  | volumetric_rendering rgb sigma _ _ white_bkgd =>
      Some (rgb, sigma, white_bkgd)
  | _ => None
  end.

(** The configuration [hp] with another [num_fine_samples]. *)
Definition with_num_fine_samples (hp : NerfModel.Hyper) (n : Z)
  : NerfModel.Hyper :=
  {| NerfModel.num_coarse_samples := NerfModel.num_coarse_samples hp;
     NerfModel.num_fine_samples := n;
     NerfModel.use_viewdirs := NerfModel.use_viewdirs hp;
     NerfModel.near := NerfModel.near hp;
     NerfModel.far := NerfModel.far hp;
     NerfModel.noise_std := NerfModel.noise_std hp;
     NerfModel.net_depth := NerfModel.net_depth hp;
     NerfModel.net_width := NerfModel.net_width hp;
     NerfModel.net_depth_condition := NerfModel.net_depth_condition hp;
     NerfModel.net_width_condition := NerfModel.net_width_condition hp;
     NerfModel.net_activation := NerfModel.net_activation hp;
     NerfModel.skip_layer := NerfModel.skip_layer hp;
     NerfModel.num_rgb_channels := NerfModel.num_rgb_channels hp;
     NerfModel.num_sigma_channels := NerfModel.num_sigma_channels hp;
     NerfModel.randomized := NerfModel.randomized hp;
     NerfModel.white_bkgd := NerfModel.white_bkgd hp;
     NerfModel.deg_point := NerfModel.deg_point hp;
     NerfModel.deg_view := NerfModel.deg_view hp;
     NerfModel.lindisp := NerfModel.lindisp hp;
     NerfModel.rgb_activation := NerfModel.rgb_activation hp;
     NerfModel.sigma_activation := NerfModel.sigma_activation hp |}.

(** The entries that [loss_fn] compares: each predicted color component
    with the target component at the same place, over the first three
    channels of the target. *)
Definition compared (rgb pixels : tensor 2) : list (R * R) :=
  concat (zip_with (@combine R R) rgb (slice_last None (Some 3%Z) pixels)).

(** Activations that never decrease. *)
Definition non_decreasing (f : R -> R) : Prop :=
  forall x y, x <= y -> f x <= f y.

(** ** The training loop of [main] *)

(** The loop of [main] (train.py, lines 155-221) as a computation that
    logs what it does and may stop with an error.  The setup before the
    loop enters through two numbers: the step of the restored state and the
    number of batches the training set yields.  The calls the loop makes
    (the training step, the renderer, the summary and the checkpoint
    writers) are logged and taken to return; the learning rate, the clock
    and the printed line are left out.  The remainders are Python's, which
    raise on a zero divisor; [train_step] returns the state with [step + 1]
    (line 93). *)

Module Main.

(** What the loop does to the world outside: a training step, a garbage
    collection, a rendering of a test image, the test and the training
    summaries written to tensorboard, and a checkpoint.  A training summary
    carries the steps whose statistics it averages, a checkpoint the step
    of the state it saves. *)
Inductive Effect : Type :=
| ptrain_step (step : Z)
| gc_collect
| render_image (step : Z)
| test_summaries (step : Z)
| train_summaries (step : Z) (stats_trace : list Z)
| save_checkpoint (step : Z).

Inductive Error : Type :=
| ZeroDivisionError.

(** The flags the loop reads. *)
Record Flags : Type := {
  max_steps : Z;
  gc_every : Z;
  render_every : Z;
  print_every : Z;
  save_every : Z
}.

(** What the loop carries from one iteration to the next: [state.step] and
    [stats_trace], whose entries are named by the step they come from. *)
Record Carried : Type := { state_step : Z; stats_trace : list Z }.

(** A computation with effects: what it did, and its value or the error
    that stopped it. *)
Definition M (A : Type) : Type := (list Effect * (Error + A))%type.

Definition ret {A : Type} (a : A) : M A := ([], inr a).

Definition bind {A B : Type} (m : M A) (f : A -> M B) : M B :=
  match m with
  | (done, inl e) => (done, inl e)
  | (done, inr a) =>
      match f a with
      | (more, r) => (done ++ more, r)
      end
  end.

Definition tell (e : Effect) : M unit := ([e], inr tt).

(** Python's [a % b] on integers. *)
Definition py_mod (a b : Z) : M Z :=
  if (b =? 0)%Z then ([], inl ZeroDivisionError) else ret (a mod b)%Z.

Declare Scope main_scope.
Delimit Scope main_scope with main.
Notation "x <- m ;; k" := (bind m (fun x => k))
  (at level 61, m at next level, right associativity) : main_scope.
Notation "m ;;; k" := (bind m (fun _ => k))
  (at level 61, right associativity) : main_scope.

Local Open Scope main_scope.

(** [range(a, a + n)]. *)
Fixpoint count_from (a : Z) (n : nat) : list Z :=
  match n with
  | O => []
  | S m => a :: count_from (a + 1) m
  end.

(** [range(a, b)]. *)
Definition py_range (a b : Z) : list Z := count_from a (Z.to_nat (b - a)).

(** [for x in l: s = f(s, x)]. *)
Fixpoint for_each {S : Type} (f : S -> Z -> M S) (l : list Z) (s : S) : M S :=
  match l with
  | [] => ret s
  | x :: r => s' <- f s x ;; for_each f r s'
  end.

Section Loop.

Variable FLAGS : Flags.

(** [jax.host_id()]. *)
Variable host_id : Z.

(** One iteration of the loop of [main]. *)
Definition body (carried : Carried) (step : Z) : M Carried :=
  (* state, stats, keys = ptrain_step(keys, state, batch, lr) *)
  tell (ptrain_step step) ;;;
  let state_step := (state_step carried + 1)%Z in
  let stats_trace :=
    if (host_id =? 0)%Z then stats_trace carried ++ [step]
    else stats_trace carried in
  r <- py_mod step (gc_every FLAGS) ;;
  (if (r =? 0)%Z then tell gc_collect else ret tt) ;;;
  (if (0 <? render_every FLAGS)%Z then
     r <- py_mod step (render_every FLAGS) ;;
     if (r =? 0)%Z then
       tell (render_image step) ;;;
       if (host_id =? 0)%Z then tell (test_summaries step) else ret tt
     else ret tt
   else ret tt) ;;;
  if negb (host_id =? 0)%Z then
    (* Only log via host 0. *)
    ret {| state_step := state_step; stats_trace := stats_trace |}
  else
    r <- py_mod step (print_every FLAGS) ;;
    stats_trace <-
      (if (r =? 0)%Z then
         tell (train_summaries step stats_trace) ;;; ret []
       else ret stats_trace) ;;
    r <- py_mod step (save_every FLAGS) ;;
    (if (r =? 0)%Z then tell (save_checkpoint state_step) else ret tt) ;;;
    ret {| state_step := state_step; stats_trace := stats_trace |}.

(** The loop of [main] and the checkpoint after it, for a state restored
    at [restored_step] and a training set that yields [batches] batches. *)
Definition loop (restored_step : Z) (batches : nat) : M unit :=
  let offset := (restored_step + 1)%Z in
  carried <-
    for_each body
      (firstn batches (py_range offset (max_steps FLAGS + 1)))
      {| state_step := restored_step; stats_trace := [] |} ;;
  r <- py_mod (max_steps FLAGS) (save_every FLAGS) ;;
  if negb (r =? 0)%Z then tell (save_checkpoint (state_step carried))
  else ret tt.

End Loop.

(** The steps trained, the steps rendered, the steps of the states saved,
    and the statistics averaged by the training summaries, in order. *)
Definition trained (log : list Effect) : list Z :=
  flat_map (fun e => match e with ptrain_step s => [s] | _ => [] end) log.

Definition rendered_at (log : list Effect) : list Z :=
  flat_map (fun e => match e with render_image s => [s] | _ => [] end) log.

Definition saved (log : list Effect) : list Z :=
  flat_map (fun e => match e with save_checkpoint s => [s] | _ => [] end) log.

Definition averaged (log : list Effect) : list Z :=
  flat_map (fun e => match e with train_summaries _ t => t | _ => [] end) log.

(** The steps at which a summary is written to tensorboard. *)
Definition summarized (log : list Effect) : list Z :=
  flat_map
    (fun e =>
       match e with
       | test_summaries s => [s]
       | train_summaries s _ => [s]
       | _ => []
       end)
    log.

(** Steps that are multiples of [every]. *)
Definition multiples (every : Z) (steps : list Z) : list Z :=
  filter (fun s => (s mod every =? 0)%Z) steps.

End Main.

(** Flags for worked examples of the loop: ten steps, a collection every
    fifth, no rendering, a summary every second and a checkpoint every
    fourth step. *)
Definition sample_loop_flags : Main.Flags :=
  {| Main.max_steps := 10;
     Main.gc_every := 5;
     Main.render_every := 0;
     Main.print_every := 2;
     Main.save_every := 4 |}.

(** * Properties *)

(** ** Running programs *)

Lemma wp_exec {A : Type} (h : handler) (p : Prog A) :
  forall Q, wp h p Q -> Q (events h p) (run h p).
Proof.
  unfold events, run. induction p as [a | c k IH]; simpl; intros Q H.
  - exact H.
  - destruct (h c) as [r|].
    + apply IH in H. destruct (exec h (k r)) as [t o]. exact H.
    + exact H.
Qed.

(** A run stops only at a call that the handler leaves unanswered. *)
Lemma run_raised_unanswered {A : Type} (h : handler) (p : Prog A) (c : Call) :
  run h p = Raised c -> h c = None.
Proof.
  unfold run. induction p as [a | c' k IH]; simpl.
  - discriminate.
  - destruct (h c') as [r|] eqn:E.
    + specialize (IH r). destruct (exec h (k r)) as [t o]. exact IH.
    + intros [= <-]. exact E.
Qed.

Ltac by_wp :=
  match goal with
  | |- context [run ?h ?p] =>
      pattern (run h p); pattern (events h p);
      match goal with
      | |- (fun e => (fun o => @?Q e o) _) _ =>
          apply (wp_exec h p (fun e o => Q e o))
      end
  | |- context [events ?h ?p] =>
      pattern (events h p);
      match goal with
      | |- (fun e => @?Q e) _ => apply (wp_exec h p (fun e _ => Q e))
      end
  end.

Ltac step_cbn := cbn [wp bind call].

Ltac answer h :=
  match goal with
  | |- context [match h ?c with _ => _ end] =>
      let r := fresh "r" in
      let E := fresh "E" in
      destruct (h c) as [r|] eqn:E; [simpl in r|]; step_cbn
  end.

Ltac step h :=
  first
    [ match goal with
      | |- context [match ?r with pair _ _ => _ end] =>
          is_var r; destruct r; step_cbn
      end
    | match goal with
      | |- context [if NerfModel.use_viewdirs ?hp then _ else _] =>
          destruct (NerfModel.use_viewdirs hp) eqn:?; step_cbn
      | |- context [if (0 <? ?n)%Z then _ else _] =>
          destruct (0 <? n)%Z eqn:?; step_cbn
      end
    | answer h ].

(** Follows [apply] call by call, one goal per way the run can end. *)
Ltac run_apply h :=
  by_wp; unfold NerfModel.apply; step_cbn; repeat step h.

(** ** The training objective *)

Lemma loss_fn_cases (Rays : Type) (compute_psnr : R -> R)
  (key_0 key_1 : PRNGKey) (batch : Train.Batch Rays)
  (model : PRNGKey -> PRNGKey -> Rays -> list RenderResult) :
  Train.loss_fn Rays compute_psnr key_0 key_1 batch model =
  match model key_0 key_1 (Train.rays Rays batch) with
  | [p] =>
      inr (Train.mse (color p) (Train.pixels Rays batch) + 0,
           [stats_of compute_psnr (Train.pixels Rays batch) p])
  | [c; p] =>
      inr (Train.mse (color p) (Train.pixels Rays batch)
           + Train.mse (color c) (Train.pixels Rays batch),
           [stats_of compute_psnr (Train.pixels Rays batch) p;
            stats_of compute_psnr (Train.pixels Rays batch) c])
  | _ =>
      inl (Train.ValueError
             ("ret should contain either 1 set of output (coarse only), or 2 sets"
              ++ "of output (coarse as ret[0] and fine as ret[1])."))
  end.
Proof.
  unfold Train.loss_fn.
  destruct (model key_0 key_1 (Train.rays Rays batch)) as [|a [|b [|c r]]];
    try reflexivity.
  - destruct a as [[? ?] ?]. reflexivity.
  - destruct a as [[? ?] ?], b as [[? ?] ?]. reflexivity.
Qed.


(** ** Slices *)

Lemma pyslice_from {A : Type} (k : nat) (l : list A) :
  pyslice (Some (Z.of_nat k)) None l = skipn k l.
Proof.
  unfold pyslice, slice_bound.
  destruct (Z.ltb_spec (Z.of_nat k) 0); [lia|].
  rewrite Nat2Z.id.
  destruct (Nat.le_gt_cases (length l) k) as [Hle | Hlt].
  - rewrite Nat.min_l by exact Hle. rewrite Nat.sub_diag, skipn_all.
    rewrite skipn_all2 by exact Hle. reflexivity.
  - rewrite Nat.min_r by lia. apply firstn_all2. rewrite length_skipn. lia.
Qed.

Lemma pyslice_drop_last {A : Type} (k : nat) (l : list A) :
  (0 < k)%nat ->
  pyslice None (Some (- Z.of_nat k)%Z) l = firstn (length l - k) l.
Proof.
  intros Hk. unfold pyslice, slice_bound.
  destruct (Z.ltb_spec (- Z.of_nat k) 0); [|lia].
  rewrite Nat.sub_0_r. simpl skipn. f_equal. lia.
Qed.

Lemma pyslice_last {A : Type} (k : nat) (l : list A) :
  (0 < k)%nat ->
  pyslice (Some (- Z.of_nat k)%Z) None l = skipn (length l - k) l.
Proof.
  intros Hk. unfold pyslice, slice_bound.
  destruct (Z.ltb_spec (- Z.of_nat k) 0); [|lia].
  replace (Z.to_nat (Z.max 0 (Z.of_nat (length l) + - Z.of_nat k)))
    with (length l - k)%nat by lia.
  apply firstn_all2. rewrite length_skipn. lia.
Qed.

Lemma pyslice_interior {A : Type} (l : list A) :
  pyslice (Some 1%Z) (Some (-1)%Z) l = firstn (length l - 2) (skipn 1 l).
Proof.
  unfold pyslice, slice_bound. cbn [Z.ltb Z.compare Z.to_nat Pos.to_nat Pos.iter_op Nat.add].
  replace (Z.to_nat (Z.max 0 (Z.of_nat (length l) + -1))) with (length l - 1)%nat by lia.
  destruct l as [|x l]; [reflexivity|].
  cbn [length]. rewrite Nat.min_r by lia. f_equal. lia.
Qed.

Lemma pyslice_range {A : Type} (a b : nat) (l : list A) :
  pyslice (Some (Z.of_nat a)) (Some (Z.of_nat b)) l = firstn (b - a) (skipn a l).
Proof.
  unfold pyslice, slice_bound.
  destruct (Z.ltb_spec (Z.of_nat a) 0); [lia|].
  destruct (Z.ltb_spec (Z.of_nat b) 0); [lia|].
  rewrite !Nat2Z.id.
  destruct (Nat.le_gt_cases (length l) a) as [Hle | Hlt].
  - rewrite (Nat.min_l _ a) by exact Hle.
    rewrite skipn_all, (skipn_all2 l Hle), !firstn_nil. reflexivity.
  - rewrite (Nat.min_r _ a) by lia.
    destruct (Nat.le_gt_cases (length l) b) as [Hb | Hb].
    + rewrite Nat.min_l by exact Hb.
      rewrite !firstn_all2; [reflexivity | |]; rewrite length_skipn; lia.
    + rewrite Nat.min_r by lia. reflexivity.
Qed.

Lemma pyslice_tail {A : Type} (l : list A) :
  pyslice (Some 1%Z) None l = skipn 1 l.
Proof. exact (pyslice_from 1 l). Qed.

Lemma pyslice_init {A : Type} (l : list A) :
  pyslice None (Some (-1)%Z) l = firstn (length l - 1) l.
Proof. exact (pyslice_drop_last 1 l Nat.lt_0_1). Qed.

Lemma midpoints_row_length (z : list R) :
  length (midpoints_row z) = (length z - 1)%nat.
Proof.
  unfold midpoints_row, zip_with.
  rewrite !length_map, length_combine.
  rewrite pyslice_tail, pyslice_init.
  rewrite length_skipn, length_firstn. lia.
Qed.

Lemma midpoints_row_nth (z : list R) (i : nat) :
  (i + 1 < length z)%nat ->
  nth i (midpoints_row z) 0 = 1 / 2 * (nth (i + 1) z 0 + nth i z 0).
Proof.
  intros Hi. unfold midpoints_row, zip_with.
  rewrite pyslice_tail, pyslice_init.
  replace 0 with (1 / 2 * (fst (0, 0) + snd (0, 0))) at 1 by (simpl; lra).
  rewrite (map_map (fun p => fst p + snd p) (Rmult (1 / 2))).
  rewrite (map_nth (fun p => 1 / 2 * (fst p + snd p))).
  rewrite combine_nth by (rewrite length_skipn, length_firstn; lia).
  cbn [fst snd]. rewrite nth_skipn, nth_firstn.
  destruct (Nat.ltb_spec i (length z - 1)); [|lia].
  replace (1 + i)%nat with (i + 1)%nat by lia. reflexivity.
Qed.

Lemma interior_length {A : Type} (w : list A) :
  length (pyslice (Some 1%Z) (Some (-1)%Z) w) = (length w - 2)%nat.
Proof.
  rewrite pyslice_interior, length_firstn, length_skipn. lia.
Qed.

Lemma interior_nth (w : list R) (i : nat) :
  (i + 2 < length w)%nat ->
  nth i (pyslice (Some 1%Z) (Some (-1)%Z) w) 0 = nth (i + 1) w 0.
Proof.
  intros Hi. rewrite pyslice_interior, nth_firstn.
  destruct (Nat.ltb_spec i (length w - 2)); [|lia].
  rewrite nth_skipn. f_equal. lia.
Qed.

(** ** Sorting *)

Lemma insert_perm (x : R) (l : list R) :
  Permutation (model_utils.insert x l) (x :: l).
Proof.
  induction l as [|y l IH]; simpl.
  - apply Permutation_refl.
  - destruct (Rle_dec x y).
    + apply Permutation_refl.
    + eapply perm_trans; [apply perm_skip, IH | apply perm_swap].
Qed.

Lemma sort_perm (l : list R) : Permutation (model_utils.sort l) l.
Proof.
  induction l as [|x l IH]; simpl.
  - apply perm_nil.
  - eapply perm_trans; [apply insert_perm | apply perm_skip, IH].
Qed.

Lemma insert_sorted (x : R) (l : list R) :
  Sorted Rle l -> Sorted Rle (model_utils.insert x l).
Proof.
  induction l as [|y l IH]; simpl; intros Hs.
  - repeat constructor.
  - destruct (Rle_dec x y) as [Hle | Hgt].
    + constructor; [exact Hs | constructor; exact Hle].
    + inversion Hs as [|? ? Hs' Hhd]; subst.
      constructor; [apply IH, Hs'|].
      destruct l as [|z l]; simpl.
      * constructor. lra.
      * destruct (Rle_dec x z); constructor; try lra.
        inversion Hhd; subst. assumption.
Qed.

Lemma sort_sorted (l : list R) : Sorted Rle (model_utils.sort l).
Proof.
  induction l as [|x l IH]; simpl.
  - constructor.
  - apply insert_sorted, IH.
Qed.

(** C1: a returning call of [apply] yields the answers of its rendering
    calls in call order: the coarse pass, rendered at the ray sampler's
    depths, comes first, and a fine pass, rendered at the resampler's
    depths, follows if and only if [num_fine_samples > 0]; so the list has
    length 1 or 2, and [loss_fn] takes its last element as the main
    prediction.  A call that does not return stopped at a call that raised. *)
Theorem apply_returns_coarse_then_fine
  (h : handler) (hp : NerfModel.Hyper) (rng_0 rng_1 : PRNGKey)
  (rays : tensor 2) :
  let ev := events h (NerfModel.apply hp rng_0 rng_1 rays) in
  match run h (NerfModel.apply hp rng_0 rng_1 rays) with
  | Returned ret =>
      ret = pick rendered ev
      /\ pick rendering_depths ev
         = pick sampler_depths ev ++ pick resampled_depths ev
      /\ length (pick sampler_depths ev) = 1%nat
      /\ length (pick resampled_depths ev)
         = (if (0 <? NerfModel.num_fine_samples hp)%Z then 1 else 0)%nat
      /\ length ret
         = (if (0 <? NerfModel.num_fine_samples hp)%Z then 2 else 1)%nat
      /\ forall (Rays : Type) (compute_psnr : R -> R) (key_0 key_1 : PRNGKey)
           (batch : Train.Batch Rays),
           exists total others,
             Train.loss_fn Rays compute_psnr key_0 key_1 batch
               (fun _ _ _ => ret)
             = inr (total,
                    stats_of compute_psnr (Train.pixels Rays batch)
                      (last ret Train.empty_result) :: others)
  | Raised c => h c = None
  end.
Proof.
  intros ev. subst ev. run_apply h; try assumption.
  all: cbn -[Train.loss_fn stats_of];
    repeat match goal with |- _ /\ _ => split end; try reflexivity;
    intros; rewrite loss_fn_cases; eexists; eexists; reflexivity.
Qed.

Lemma architecture_not_empty (hp : NerfModel.Hyper) :
  NerfModel.architecture hp <> no_kwargs.
Proof. unfold NerfModel.architecture, no_kwargs. discriminate. Qed.

(** C4: every call of the resampler receives the midpoints
    [1/2 * (z_(i+1) + z_i)] of the coarse depths and the coarse weights
    without the first and the last of each ray, together with the coarse
    depths; a returning run calls it exactly when [num_fine_samples > 0]
    and renders the fine pass at the depths it answers, which the
    resampler of the specification forms by merging its draw with the
    coarse depths in ascending order. *)
Theorem resampler_gets_midpoints_and_interior_weights
  (h : handler) (hp : NerfModel.Hyper) (rng_0 rng_1 : PRNGKey)
  (rays : tensor 2) :
  let ev := events h (NerfModel.apply hp rng_0 rng_1 rays) in
  Forall
    (fun a =>
       exists z w,
         hd_error (pick sampler_depths ev) = Some z
         /\ hd_error (pick rendered_weights ev) = Some w
         /\ a = (midpoints z, slice_last (Some 1%Z) (Some (-1)%Z) w,
                 NerfModel.ray_part rays, z,
                 NerfModel.num_fine_samples hp, NerfModel.randomized hp))
    (pick resampler_args ev)
  /\ match run h (NerfModel.apply hp rng_0 rng_1 rays) with
     | Returned _ =>
         length (pick resampler_args ev)
         = (if (0 <? NerfModel.num_fine_samples hp)%Z then 1 else 0)%nat
         /\ pick rendering_depths ev
            = pick sampler_depths ev ++ pick resampled_depths ev
     | Raised c => h c = None
     end
  /\ (forall z : tensor 2, midpoints z = map midpoints_row z)
  /\ (forall z : list R,
        length (midpoints_row z) = (length z - 1)%nat
        /\ forall i : nat,
             (i + 1 < length z)%nat ->
             nth i (midpoints_row z) 0
             = 1 / 2 * (nth (i + 1) z 0 + nth i z 0))
  /\ (forall w : tensor 2,
        slice_last (Some 1%Z) (Some (-1)%Z) w
        = map (pyslice (Some 1%Z) (Some (-1)%Z)) w)
  /\ (forall w : list R,
        length (pyslice (Some 1%Z) (Some (-1)%Z) w) = (length w - 2)%nat
        /\ forall i : nat,
             (i + 2 < length w)%nat ->
             nth i (pyslice (Some 1%Z) (Some (-1)%Z) w) 0 = nth (i + 1) w 0)
  /\ (forall (ext : Externals) (key : PRNGKey) (b : nat)
        (bins weights z : list R) (n : Z) (randomized : bool),
        let merged :=
          model_utils.resample_ray ext key b bins weights z n randomized in
        Permutation merged
          (z ++ inverse_cdf ext (if randomized then Some key else None) b
                  bins weights n)
        /\ Sorted Rle merged).
Proof.
  intros ev. subst ev.
  split; [| split; [| split; [| split; [| split; [| split]]]]].
  - run_apply h; cbn; repeat constructor.
    all: eexists; eexists; repeat split; reflexivity.
  - run_apply h; try assumption; cbn; auto.
  - reflexivity.
  - intros z. split; [apply midpoints_row_length | apply midpoints_row_nth].
  - reflexivity.
  - intros w. split; [apply interior_length | apply interior_nth].
  - intros ext key b bins weights z n randomized merged. subst merged.
    unfold model_utils.resample_ray. split; [apply sort_perm | apply sort_sorted].
Qed.



(** ** The factory *)

Lemma Rltb_true (x y : R) : Rltb x y = true <-> x < y.
Proof.
  unfold Rltb. destruct (Rlt_dec x y); split; intros; try assumption;
    try reflexivity; try discriminate; contradiction.
Qed.

Lemma rgb_out_of_range_spec (f : R -> R) (l : list R) :
  rgb_out_of_range (map f l) = true
  <-> exists x, In x l /\ (f x < 0 \/ 1 < f x).
Proof.
  unfold rgb_out_of_range. rewrite orb_true_iff, !existsb_exists. split.
  - intros [[y [Hin Hy]] | [y [Hin Hy]]];
      apply in_map_iff in Hin; destruct Hin as [x [<- Hx]];
      apply Rltb_true in Hy; exists x; auto.
  - intros [x [Hx [Hlt | Hgt]]]; [left | right];
      exists (f x); (split; [apply in_map, Hx | apply Rltb_true; assumption]).
Qed.

Lemma sigma_negative_spec (f : R -> R) (l : list R) :
  sigma_negative (map f l) = true <-> exists x, In x l /\ f x < 0.
Proof.
  unfold sigma_negative. rewrite existsb_exists. split.
  - intros [y [Hin Hy]]. apply in_map_iff in Hin. destruct Hin as [x [<- Hx]].
    apply Rltb_true in Hy. exists x; auto.
  - intros [x [Hx Hlt]]. exists (f x).
    split; [apply in_map, Hx | apply Rltb_true; assumption].
Qed.

(** C3: once the three activation names resolve in [flax.nn], [nerf] raises
    if and only if the color activation maps a probed input outside [[0,1]]
    or the density activation maps a probed input below 0, and what it
    raises is the [NotImplementedError]; a model that is built carries the
    probed activations, which passed the probe, and [apply] has no check of
    its own: it stops only where a call it makes raises. *)
Theorem nerf_checks_activations_at_construction
  (nn : string -> option (R -> R)) (key : PRNGKey) (args : FLAGS.t)
  (f_net f_rgb f_sigma : R -> R) :
  nn (FLAGS.net_activation args) = Some f_net ->
  nn (FLAGS.rgb_activation args) = Some f_rgb ->
  nn (FLAGS.sigma_activation args) = Some f_sigma ->
  ((exists e, nerf nn key args = inl e) <-> out_of_range f_rgb f_sigma)
  /\ (forall e, nerf nn key args = inl e -> exists msg, e = NotImplementedError msg)
  /\ (forall hp,
        nerf nn key args = inr hp ->
        NerfModel.rgb_activation hp = f_rgb
        /\ NerfModel.sigma_activation hp = f_sigma
        /\ ~ out_of_range f_rgb f_sigma)
  /\ (forall hp h rng_0 rng_1 rays c,
        run h (NerfModel.apply hp rng_0 rng_1 rays) = Raised c -> h c = None).
Proof.
  intros Hnet Hrgb Hsigma. unfold nerf, getattr, out_of_range.
  rewrite Hnet, Hrgb, Hsigma. cbv zeta.
  pose proof (rgb_out_of_range_spec f_rgb probe_inputs) as Hr.
  pose proof (sigma_negative_spec f_sigma probe_inputs) as Hs.
  destruct (rgb_out_of_range (map f_rgb probe_inputs)).
  - repeat split.
    + intros _. left. apply Hr. reflexivity.
    + intros _. eexists. reflexivity.
    + intros e [= <-]. eexists. reflexivity.
    + discriminate.
    + discriminate.
    + discriminate.
    + intros. eapply run_raised_unanswered. eassumption.
  - destruct (sigma_negative (map f_sigma probe_inputs)).
    + repeat split.
      * intros _. right. apply Hs. reflexivity.
      * intros _. eexists. reflexivity.
      * intros e [= <-]. eexists. reflexivity.
      * discriminate.
      * discriminate.
      * discriminate.
      * intros. eapply run_raised_unanswered. eassumption.
    + repeat split.
      * intros [e He]. discriminate.
      * intros [H | H]; [apply Hr in H | apply Hs in H]; discriminate.
      * discriminate.
      * injection H as <-. reflexivity.
      * injection H as <-. reflexivity.
      * intros [H' | H']; [apply Hr in H' | apply Hs in H']; discriminate.
      * intros. eapply run_raised_unanswered. eassumption.
Qed.

(** ** The renderer *)

Lemma last_interval_nonneg : 0 <= model_utils.last_interval.
Proof. unfold model_utils.last_interval. apply pow_le. lra. Qed.

Lemma interval_lengths_nonneg (t : list R) :
  Sorted Rle t -> Forall (Rle 0) (model_utils.interval_lengths t).
Proof.
  induction t as [|a r IH]; intros Hs; [constructor|].
  cbn [model_utils.interval_lengths].
  inversion Hs as [|? ? Hr Hhd]; subst.
  destruct r as [|b r'].
  - constructor; [apply last_interval_nonneg | constructor].
  - constructor; [inversion Hhd; subst; lra | apply IH, Hr].
Qed.

Lemma norm_nonneg (v : list R) : 0 <= norm v.
Proof. apply sqrt_pos. Qed.

Lemma opacity_unit (x : R) : 0 <= x -> unit_interval (1 - exp (- x)).
Proof.
  intros Hx. unfold unit_interval.
  pose proof (exp_pos (- x)) as Hpos.
  assert (exp (- x) <= 1).
  { destruct (Rle_lt_or_eq_dec 0 x Hx) as [Hlt | <-].
    - left. rewrite <- exp_0. apply exp_increasing. lra.
    - rewrite Ropp_0, exp_0. lra. }
  lra.
Qed.

Lemma alphas_unit (sigma t dir : list R) :
  Forall (Rle 0) sigma -> Sorted Rle t ->
  Forall unit_interval (model_utils.alphas sigma t dir).
Proof.
  intros Hsig Hs. unfold model_utils.alphas, zip_with.
  pose proof (interval_lengths_nonneg t Hs) as Hd.
  revert Hd. generalize (model_utils.interval_lengths t) as ds.
  induction Hsig as [|s sigma Hs0 Hsig IH]; intros ds Hd; [constructor|].
  destruct Hd as [|d ds Hd0 Hd]; [constructor|].
  cbn [combine map fst snd]. constructor; [| apply IH, Hd].
  apply opacity_unit. pose proof (norm_nonneg dir).
  apply Rmult_le_pos; [assumption | apply Rmult_le_pos; assumption].
Qed.

Lemma weights_from_bounds (alpha : list R) :
  Forall unit_interval alpha ->
  forall T : R, 0 <= T ->
    Forall (Rle 0) (model_utils.weights_from T alpha)
    /\ 0 <= Rsum (model_utils.weights_from T alpha) <= T.
Proof.
  induction 1 as [|a alpha [Ha0 Ha1] Halpha IH]; intros T HT;
    cbn [model_utils.weights_from Rsum fold_right].
  - split; [constructor | lra].
  - assert (HT' : 0 <= T * (1 - a)) by (apply Rmult_le_pos; lra).
    destruct (IH _ HT') as [Hall [Hlo Hhi]].
    fold (Rsum (model_utils.weights_from (T * (1 - a)) alpha)).
    assert (0 <= T * a) by (apply Rmult_le_pos; lra).
    split; [constructor; assumption | lra].
Qed.

Lemma weighted_channel_bounds (j : nat) (w : list R) :
  Forall (Rle 0) w ->
  forall rgb : list (list R),
    Forall (Forall unit_interval) rgb ->
    0 <= Rsum (zip_with (fun wi c => wi * nth j c 0) w rgb) <= Rsum w.
Proof.
  unfold zip_with.
  induction 1 as [|wi w Hwi Hw IH]; intros rgb Hrgb;
    cbn [combine map Rsum fold_right]; [lra|].
  fold (Rsum w).
  destruct Hrgb as [|c rgb Hc Hrgb].
  - cbn [map Rsum fold_right].
    assert (0 <= Rsum w).
    { clear IH. induction Hw; cbn [Rsum fold_right]; [lra|].
      fold (Rsum l). lra. }
    lra.
  - cbn [combine map Rsum fold_right fst snd].
    fold (Rsum (map (fun p => fst p * nth j (snd p) 0) (combine w rgb))).
    specialize (IH rgb Hrgb).
    assert (Hn : unit_interval (nth j c 0)).
    { destruct (Nat.lt_ge_cases j (length c)) as [Hlt | Hge].
      - rewrite Forall_forall in Hc. apply Hc, nth_In, Hlt.
      - rewrite nth_overflow by exact Hge. unfold unit_interval. lra. }
    destruct Hn as [Hn0 Hn1].
    assert (0 <= wi * nth j c 0) by (apply Rmult_le_pos; assumption).
    assert (wi * nth j c 0 <= wi * 1) by (apply Rmult_le_compat_l; assumption).
    lra.
Qed.

(** C6, amended: for colors in [[0,1]], non-negative densities and depths
    in non-decreasing order, the compositing weights of the renderer are
    non-negative, their sum, which is the accumulated opacity, lies in
    [[0,1]], and every component of the composite color lies in [[0,1]]. *)
Theorem renderer_stays_in_unit_range
  (rgb : list (list R)) (sigma t dir : list R) (white_bkgd : bool) :
  Forall (Forall unit_interval) rgb ->
  Forall (Rle 0) sigma ->
  Sorted Rle t ->
  let w := model_utils.compositing_weights sigma t dir in
  model_utils.render_ray rgb sigma t dir white_bkgd
  = (map (model_utils.composite_channel w rgb white_bkgd) (seq 0 3),
     model_utils.disparity w t, Rsum w, w)
  /\ Forall (Rle 0) w
  /\ unit_interval (Rsum w)
  /\ Forall unit_interval
       (map (model_utils.composite_channel w rgb white_bkgd) (seq 0 3)).
Proof.
  intros Hrgb Hsig Hs w. subst w.
  split; [reflexivity|].
  destruct (weights_from_bounds _ (alphas_unit sigma t dir Hsig Hs) 1
              ltac:(lra)) as [Hw Hsum].
  fold (model_utils.compositing_weights sigma t dir) in Hw, Hsum.
  split; [exact Hw|]. split; [exact Hsum|].
  apply Forall_forall. intros x Hx. apply in_map_iff in Hx.
  destruct Hx as [j [<- _]]. unfold model_utils.composite_channel.
  pose proof (weighted_channel_bounds j _ Hw rgb Hrgb) as Hc.
  unfold unit_interval in *. destruct white_bkgd; lra.
Qed.

(** C6 fails without the order of the depths: two samples of density 1 and
    color white at depths 1 and 0 get a negative first weight. *)
Lemma renderer_backward_depths_negative_weight :
  let rgb := [[1; 1; 1]; [1; 1; 1]] in
  let sigma := [1; 1] in
  let t := [1; 0] in
  let dir := [0; 0; 1] in
  Forall (Forall unit_interval) rgb
  /\ Forall (Rle 0) sigma
  /\ ~ Forall (Rle 0) (model_utils.compositing_weights sigma t dir).
Proof.
  cbv zeta. split; [| split].
  - repeat constructor; lra.
  - repeat constructor; lra.
  - intros H. unfold model_utils.compositing_weights, model_utils.alphas,
      zip_with in H.
    cbn [model_utils.interval_lengths combine map fst snd
         model_utils.weights_from] in H.
    apply Forall_inv in H.
    assert (Hn : norm [0; 0; 1] = 1).
    { unfold norm. cbn [map Rsum fold_right].
      replace (0 * 0 + (0 * 0 + (1 * 1 + 0))) with 1 by ring. apply sqrt_1. }
    rewrite Hn in H.
    replace (- (1 * ((0 - 1) * 1))) with 1 in H by ring.
    pose proof (exp_increasing 0 1 ltac:(lra)) as He. rewrite exp_0 in He.
    lra.
Qed.

(** ** The ray sampler *)

Lemma checked_div_defined (a b : R) :
  b <> 0 -> model_utils.checked_div a b = Some (a / b).
Proof.
  intros Hb. unfold model_utils.checked_div.
  destruct (Req_dec_T b 0); [contradiction | reflexivity].
Qed.


Lemma traverse_Forall {A B : Type} (f : A -> option B) (P : B -> Prop)
  (l : list A) :
  (forall a, In a l -> exists b, f a = Some b /\ P b) ->
  exists bs, traverse f l = Some bs /\ length bs = length l /\ Forall P bs.
Proof.
  induction l as [|a l IH]; intros H; cbn [traverse].
  - exists []. repeat split. constructor.
  - destruct (H a (or_introl eq_refl)) as [b [-> Hb]].
    destruct IH as [bs [-> [Hlen Hall]]].
    { intros a' Ha'. apply H. right. exact Ha'. }
    exists (b :: bs). repeat split; [cbn; lia | constructor; assumption].
Qed.

(** Consecutive answers in increasing order make the traversal sorted. *)
Lemma traverse_seq_sorted (f : nat -> option R) (P : R -> Prop) (n : nat) :
  forall a : nat,
    (forall i, (a <= i < a + n)%nat -> exists d, f i = Some d /\ P d) ->
    (forall i d1 d2, (a <= i)%nat -> (S i < a + n)%nat ->
                     f i = Some d1 -> f (S i) = Some d2 -> d1 < d2) ->
    exists zs, traverse f (seq a n) = Some zs
               /\ length zs = n /\ Sorted Rlt zs /\ Forall P zs
               /\ (forall z, hd_error zs = Some z -> f a = Some z).
Proof.
  induction n as [|n IH]; intros a Hdef Hinc; cbn [seq traverse].
  - exists []. repeat split; try constructor. discriminate.
  - destruct (Hdef a ltac:(lia)) as [d [Hd HP]]. rewrite Hd.
    destruct (IH (S a)) as [zs [-> [Hlen [Hsorted [Hall Hhd]]]]].
    { intros i Hi. apply Hdef. lia. }
    { intros i d1 d2 Hi1 Hi2. apply Hinc; lia. }
    exists (d :: zs). split; [reflexivity|]. split; [cbn; lia|].
    split; [| split; [constructor; assumption |]].
    + constructor; [exact Hsorted|].
      destruct zs as [|z zs]; constructor.
      apply (Hinc a d z); [lia | cbn in Hlen; lia | exact Hd |].
      apply Hhd. reflexivity.
    + intros z [= <-]. reflexivity.
Qed.

Lemma bin_position_unit (num i : nat) (o : R) :
  (i < num)%nat -> 0 <= o < 1 ->
  0 <= model_utils.bin_position num o i < 1.
Proof.
  intros Hi [Ho0 Ho1]. unfold model_utils.bin_position.
  assert (Hn : 0 < INR num) by (apply lt_0_INR; lia).
  assert (Hi0 : 0 <= INR i) by apply pos_INR.
  assert (Hin : INR i + 1 <= INR num).
  { rewrite <- S_INR. apply le_INR. lia. }
  split.
  - apply Rmult_le_pos; [lra | left; apply Rinv_0_lt_compat, Hn].
  - apply (Rmult_lt_reg_r (INR num)); [exact Hn|].
    unfold Rdiv. rewrite Rmult_assoc, Rinv_l by lra. lra.
Qed.

Lemma bin_position_increasing (num i : nat) (o1 o2 : R) :
  (0 < num)%nat -> 0 <= o1 < 1 -> 0 <= o2 < 1 ->
  model_utils.bin_position num o1 i < model_utils.bin_position num o2 (S i).
Proof.
  intros Hn [_ Ho1] [Ho2 _]. unfold model_utils.bin_position.
  assert (Hn' : 0 < INR num) by (apply lt_0_INR; lia).
  rewrite S_INR. unfold Rdiv.
  apply Rmult_lt_compat_r; [apply Rinv_0_lt_compat, Hn' | lra].
Qed.

(** The disparity spacing in closed form. *)
Lemma depth_at_disparity (near far u : R) :
  near <> 0 -> far <> 0 -> far * (1 - u) + near * u <> 0 ->
  model_utils.depth_at near far true u
  = Some (near * far / (far * (1 - u) + near * u)).
Proof.
  intros Hn Hf Hc. unfold model_utils.depth_at.
  rewrite !checked_div_defined by assumption.
  assert (Hd : 1 / near * (1 - u) + 1 / far * u
               = (far * (1 - u) + near * u) / (near * far)) by (field; auto).
  rewrite checked_div_defined.
  - f_equal. rewrite Hd. field. auto.
  - rewrite Hd. unfold Rdiv. apply Rmult_integral_contrapositive_currified;
      [exact Hc | apply Rinv_neq_0_compat, Rmult_integral_contrapositive_currified;
                  assumption].
Qed.

Lemma same_sign_blend (near far u : R) :
  near < far -> 0 < near * far -> 0 <= u <= 1 ->
  0 < near * (far * (1 - u) + near * u)
  /\ 0 < far * (far * (1 - u) + near * u).
Proof.
  intros Hlt Hsign [Hu0 Hu1].
  destruct (Rlt_or_le 0 near) as [Hpos | Hneg].
  - assert (0 < far) by lra.
    assert (0 < far * (1 - u) + near * u) by nra.
    split; nra.
  - assert (near < 0) by (destruct Hneg; [assumption | subst; lra]).
    assert (far < 0) by nra.
    assert (far * (1 - u) + near * u < 0) by nra.
    split; nra.
Qed.

Lemma depth_at_in_range (near far : R) (lindisp : bool) (u : R) :
  near < far -> (lindisp = true -> 0 < near * far) -> 0 <= u <= 1 ->
  exists d, model_utils.depth_at near far lindisp u = Some d
            /\ near <= d <= far.
Proof.
  intros Hlt Hsign Hu. destruct lindisp.
  - specialize (Hsign eq_refl).
    destruct (same_sign_blend near far u Hlt Hsign Hu) as [Hn Hf].
    set (c := far * (1 - u) + near * u) in *.
    assert (Hn0 : near <> 0) by (intros ->; lra).
    assert (Hf0 : far <> 0) by (intros ->; lra).
    assert (Hc0 : c <> 0) by (intros E; rewrite E in Hn; lra).
    exists (near * far / c). split; [apply depth_at_disparity; assumption|].
    assert (Hcc : 0 < c * c) by nra.
    assert (E1 : near * far / c - near = near * c * ((far - near) * u) / (c * c)).
    { unfold c. field. exact Hc0. }
    assert (E2 : far - near * far / c = far * c * ((far - near) * (1 - u)) / (c * c)).
    { unfold c. field. exact Hc0. }
    assert (0 <= near * c * ((far - near) * u) / (c * c)).
    { apply Rmult_le_pos; [| left; apply Rinv_0_lt_compat, Hcc].
      apply Rmult_le_pos; [lra | apply Rmult_le_pos; lra]. }
    assert (0 <= far * c * ((far - near) * (1 - u)) / (c * c)).
    { apply Rmult_le_pos; [| left; apply Rinv_0_lt_compat, Hcc].
      apply Rmult_le_pos; [lra | apply Rmult_le_pos; lra]. }
    lra.
  - exists (near * (1 - u) + far * u). split; [reflexivity|].
    assert (0 <= (far - near) * u) by (apply Rmult_le_pos; lra).
    assert (0 <= (far - near) * (1 - u)) by (apply Rmult_le_pos; lra).
    lra.
Qed.

Lemma depth_at_increasing (near far : R) (lindisp : bool) (u1 u2 d1 d2 : R) :
  near < far -> (lindisp = true -> 0 < near * far) ->
  0 <= u1 -> u1 < u2 -> u2 <= 1 ->
  model_utils.depth_at near far lindisp u1 = Some d1 ->
  model_utils.depth_at near far lindisp u2 = Some d2 ->
  d1 < d2.
Proof.
  intros Hlt Hsign H0 H12 H1. destruct lindisp.
  - specialize (Hsign eq_refl).
    destruct (same_sign_blend near far u1 Hlt Hsign ltac:(lra)) as [Hn1 Hf1].
    destruct (same_sign_blend near far u2 Hlt Hsign ltac:(lra)) as [Hn2 Hf2].
    set (c1 := far * (1 - u1) + near * u1) in *.
    set (c2 := far * (1 - u2) + near * u2) in *.
    assert (Hn0 : near <> 0) by (intros ->; lra).
    assert (Hf0 : far <> 0) by (intros ->; lra).
    assert (Hc1 : c1 <> 0) by (intros E; rewrite E in Hn1; lra).
    assert (Hc2 : c2 <> 0) by (intros E; rewrite E in Hn2; lra).
    rewrite !depth_at_disparity by assumption.
    fold c1 c2. intros [= <-] [= <-].
    assert (Hcc : 0 < c1 * c2).
    { destruct (Rlt_or_le 0 near); nra. }
    assert (E : near * far / c2 - near * far / c1
                = near * far * ((far - near) * (u2 - u1)) / (c1 * c2)).
    { unfold c1, c2. field. split; assumption. }
    assert (0 < near * far * ((far - near) * (u2 - u1)) / (c1 * c2)).
    { apply Rmult_lt_0_compat; [| apply Rinv_0_lt_compat, Hcc].
      apply Rmult_lt_0_compat; [exact Hsign |].
      apply Rmult_lt_0_compat; lra. }
    lra.
  - cbn [model_utils.depth_at]. intros [= <-] [= <-].
    assert (0 < (far - near) * (u2 - u1)) by (apply Rmult_lt_0_compat; lra).
    lra.
Qed.

Lemma ray_depths_increasing (ext : Externals) (key : PRNGKey) (b : nat)
  (n : Z) (near far : R) (randomized lindisp : bool) :
  (forall k ix, 0 <= uniform ext k ix < 1) ->
  near < far -> (lindisp = true -> 0 < near * far) ->
  exists zs,
    model_utils.ray_depths ext key b n near far randomized lindisp = Some zs
    /\ length zs = Z.to_nat n
    /\ Sorted Rlt zs
    /\ Forall (fun z => near <= z <= far) zs.
Proof.
  intros Hu Hlt Hsign. unfold model_utils.ray_depths.
  set (num := Z.to_nat n).
  set (off := fun i : nat =>
                if randomized then uniform ext key [b; i] else 1 / 2).
  assert (Hoff : forall i, 0 <= off i < 1).
  { intros i. unfold off. destruct randomized; [apply Hu | lra]. }
  destruct (traverse_seq_sorted
              (fun i => model_utils.depth_at near far lindisp
                          (model_utils.bin_position num (off i) i))
              (fun z => near <= z <= far) num 0) as [zs [H1 [H2 [H3 [H4 _]]]]].
  - intros i Hi. apply depth_at_in_range; try assumption.
    pose proof (bin_position_unit num i (off i) ltac:(lia) (Hoff i)). lra.
  - intros i d1 d2 _ Hi. apply depth_at_increasing; try assumption.
    + apply (bin_position_unit num i (off i) ltac:(lia) (Hoff i)).
    + apply bin_position_increasing; [lia | apply Hoff | apply Hoff].
    + pose proof (bin_position_unit num (S i) (off (S i)) ltac:(lia)
                    (Hoff (S i))). lra.
  - exists zs. auto.
Qed.

(** C7, amended: with offsets drawn in [[0,1)], [near < far], and in
    disparity spacing [near] and [far] of one sign, the sampler answers,
    for every ray and every number of samples, depths that increase
    strictly and lie within [[min(near, far), max(near, far)]], randomized
    or not. *)
Theorem sampler_depths_increase_within_clip_range (ext : Externals)
  (key : PRNGKey) (rays : tensor 2) (n : Z) (near far : R)
  (randomized lindisp : bool) :
  (forall k ix, 0 <= uniform ext k ix < 1) ->
  near < far ->
  (lindisp = true -> 0 < near * far) ->
  exists z_vals points,
    model_utils.sample_along_rays ext key rays n near far randomized lindisp
    = Some (z_vals, points)
    /\ length z_vals = length rays
    /\ Forall
         (fun zs =>
            length zs = Z.to_nat n
            /\ StronglySorted Rlt zs
            /\ Forall (fun z => Rmin near far <= z <= Rmax near far) zs)
         z_vals.
Proof.
  intros Hu Hlt Hsign. unfold model_utils.sample_along_rays.
  destruct (traverse_Forall
              (fun b => model_utils.ray_depths ext key b n near far randomized
                          lindisp)
              (fun zs =>
                 length zs = Z.to_nat n
                 /\ StronglySorted Rlt zs
                 /\ Forall (fun z => Rmin near far <= z <= Rmax near far) zs)
              (seq 0 (length rays))) as [z_vals [-> [Hlen Hall]]].
  - intros b _.
    destruct (ray_depths_increasing ext key b n near far randomized lindisp
                Hu Hlt Hsign) as [zs [H1 [H2 [H3 H4]]]].
    exists zs. split; [exact H1|]. split; [exact H2|]. split.
    + apply Sorted_StronglySorted; [| exact H3].
      intros x y z. apply Rlt_trans.
    + rewrite Rmin_left, Rmax_right by lra. exact H4.
  - eexists. eexists. split; [reflexivity|].
    rewrite length_seq in Hlen. auto.
Qed.

(** C7 fails in disparity spacing across zero: with [near = -1] and
    [far = 1] the two deterministic depths are -2 and 2. *)
Lemma sampler_disparity_depths_leave_clip_range :
  let near := -1 in
  let far := 1 in
  exists z_vals points,
    near < far
    /\ model_utils.sample_along_rays sample_ext (0, 0)%Z sample_rays 2 near far
         false true = Some (z_vals, points)
    /\ ~ Forall (Forall (fun z => Rmin near far <= z <= Rmax near far)) z_vals.
Proof.
  cbv zeta. unfold model_utils.sample_along_rays, model_utils.ray_depths.
  change (Z.to_nat 2) with 2%nat.
  cbn [sample_rays length seq traverse].
  unfold model_utils.bin_position. cbn [INR].
  rewrite !(depth_at_disparity (-1) 1) by lra.
  eexists. eexists. split; [lra|]. split; [reflexivity|].
  intros H. apply Forall_inv in H. apply Forall_inv in H.
  rewrite Rmin_left in H by lra.
  replace (-1 * 1 / (1 * (1 - (0 + 1 / 2) / (1 + 1)) + -1 * ((0 + 1 / 2) / (1 + 1))))
    with (-2) in H by field.
  lra.
Qed.

(** ** Coinciding clip planes *)



(** The guards outside the sampler.  The renderer divides by a positive sum
    of weights and by a depth of at least [epsilon], so its guard never
    rejects, and the guarded renderer is the renderer. *)
Lemma epsilon_pos : 0 < model_utils.epsilon.
Proof.
  unfold model_utils.epsilon. apply Rinv_0_lt_compat, pow_lt. lra.
Qed.

Lemma guarded_disparity_answers (w t : list R) :
  guarded_disparity w t = Some (model_utils.disparity w t).
Proof.
  unfold guarded_disparity, model_utils.disparity.
  destruct (Rlt_dec 0 (Rsum w)) as [Hw | Hw]; [| reflexivity].
  rewrite checked_div_defined by lra.
  apply checked_div_defined.
  pose proof epsilon_pos.
  pose proof (Rmax_l model_utils.epsilon
                (Rsum (zip_with Rmult w t) / Rsum w)).
  lra.
Qed.

Lemma traverse_total {A B : Type} (f : A -> option B) (g : A -> B)
  (l : list A) :
  (forall a, In a l -> f a = Some (g a)) -> traverse f l = Some (map g l).
Proof.
  induction l as [|a l IH]; intros H; cbn [traverse map].
  - reflexivity.
  - rewrite (H a (or_introl eq_refl)), IH; [reflexivity |].
    intros a' Ha'. apply H. right. exact Ha'.
Qed.

Lemma guarded_rendering_answers (rgb sigma : tensor 3) (z_vals dirs : tensor 2)
  (white_bkgd : bool) :
  guarded_volumetric_rendering rgb sigma z_vals dirs white_bkgd
  = Some (model_utils.volumetric_rendering rgb sigma z_vals dirs white_bkgd).
Proof.
  unfold guarded_volumetric_rendering, model_utils.volumetric_rendering.
  rewrite (traverse_total _
             (fun p =>
                match p with
                | (c, s, t, d) =>
                    model_utils.render_ray c (map (hd 0) s) t d white_bkgd
                end)).
  - reflexivity.
  - intros [[[c s] t] d] _. unfold guarded_render_ray, model_utils.render_ray.
    rewrite guarded_disparity_answers. reflexivity.
Qed.


Lemma guarded_encoder_rejects (ext : Externals) (n : nat) (x : tensor n)
  (deg : Z) :
  (deg < 0)%Z -> guarded_handler ext (posenc n x deg) = None.
Proof.
  intros Hd. cbn [guarded_handler].
  destruct (Z.ltb_spec deg 0); [reflexivity | lia].
Qed.


(** What the guarded components answer is what the components answer. *)
Lemma guarded_handler_refines (ext : Externals) (c : Call) (r : Reply c) :
  guarded_handler ext c = Some r -> spec_handler ext c = Some r.
Proof.
  destruct c; cbn [guarded_handler spec_handler]; try (intros H; exact H).
  - destruct (deg <? 0)%Z; [discriminate | intros H; exact H].
  - destruct (same_sample_counts _ _ && same_sample_counts _ _);
      [intros H; exact H | discriminate].
  - rewrite guarded_rendering_answers. intros H; exact H.
Qed.















(** ** Determinism *)

Lemma returned_run {A : Type} (h : handler) (p : Prog A) :
  returned (run h p) = result h p.
Proof.
  unfold run. induction p as [a | c k IH]; cbn [exec result].
  - reflexivity.
  - destruct (h c) as [r|]; [| reflexivity].
    rewrite <- IH. destruct (exec h (k r)). reflexivity.
Qed.

Lemma sampler_ignores_key (ext : Externals) (key key' : PRNGKey)
  (rays : tensor 2) (n : Z) (near far : R) (lindisp : bool) :
  model_utils.sample_along_rays ext key rays n near far false lindisp
  = model_utils.sample_along_rays ext key' rays n near far false lindisp.
Proof. reflexivity. Qed.

Lemma noise_is_identity (ext : Externals) (key : PRNGKey) (raw : tensor 3)
  (noise_std : R) :
  model_utils.add_gaussian_noise ext key raw noise_std false = raw.
Proof. reflexivity. Qed.

Lemma resampler_ignores_key (ext : Externals) (key key' : PRNGKey)
  (bins weights rays z_vals : tensor 2) (n : Z) :
  model_utils.sample_pdf ext key bins weights rays z_vals n false
  = model_utils.sample_pdf ext key' bins weights rays z_vals n false.
Proof. reflexivity. Qed.

Ltac same_key ext :=
  repeat match goal with
    | |- context [model_utils.sample_along_rays ext ?k ?a ?b ?c ?d false ?e] =>
        lazymatch k with
        | (0%Z, 0%Z) => fail
        | _ => rewrite (sampler_ignores_key ext k (0, 0)%Z a b c d e)
        end
    | |- context [model_utils.sample_pdf ext ?k ?a ?b ?c ?d ?e false] =>
        lazymatch k with
        | (0%Z, 0%Z) => fail
        | _ => rewrite (resampler_ignores_key ext k (0, 0)%Z a b c d e)
        end
    | |- context [model_utils.add_gaussian_noise ext ?k ?a ?b false] =>
        rewrite (noise_is_identity ext k a b)
    end.

Ltac lockstep ext :=
  repeat (cbn [result bind call spec_handler]; same_key ext;
          first
            [ match goal with
              | E : ?r = _ |- context [match ?r with pair _ _ => _ end] =>
                  rewrite E
              | E : ?o = _
                |- context [match ?o with Some _ => _ | None => _ end] =>
                  rewrite E
              | E : ?b = _ |- context [if ?b then _ else _] => rewrite E
              end
            | match goal with
              | |- context [match ?r with pair _ _ => _ end] =>
                  destruct r eqn:?
              | |- context [match ?o with Some _ => _ | None => _ end] =>
                  destruct o eqn:?
              | |- context [if ?b then _ else _] => destruct b eqn:?
              end ]).

(** C9: with [randomized = False], what [apply] returns on given rays and
    configuration depends neither on the two random keys nor on
    [noise_std]; the noise regularizer answers the raw densities unchanged
    for every [noise_std]. *)
Theorem unrandomized_apply_ignores_keys_and_noise (ext : Externals)
  (hp : NerfModel.Hyper) (rng_0 rng_1 rng_0' rng_1' : PRNGKey)
  (noise_std' : R) (rays : tensor 2) :
  NerfModel.randomized hp = false ->
  returned (run (spec_handler ext) (NerfModel.apply hp rng_0 rng_1 rays))
  = returned (run (spec_handler ext)
                (NerfModel.apply (with_noise_std hp noise_std') rng_0' rng_1'
                   rays))
  /\ forall (key : PRNGKey) (raw : tensor 3) (noise_std : R),
       spec_handler ext (add_gaussian_noise key raw noise_std false) = Some raw.
Proof.
  intros Hr. split; [| reflexivity].
  rewrite !returned_run. unfold NerfModel.apply.
  cbn [with_noise_std NerfModel.num_coarse_samples NerfModel.num_fine_samples
       NerfModel.use_viewdirs NerfModel.near NerfModel.far NerfModel.noise_std
       NerfModel.randomized NerfModel.white_bkgd NerfModel.deg_point
       NerfModel.deg_view NerfModel.lindisp NerfModel.rgb_activation
       NerfModel.sigma_activation NerfModel.architecture NerfModel.net_depth
       NerfModel.net_width NerfModel.net_depth_condition
       NerfModel.net_width_condition NerfModel.net_activation
       NerfModel.skip_layer NerfModel.num_rgb_channels
       NerfModel.num_sigma_channels].
  rewrite Hr.
  change (NerfModel.architecture (with_noise_std hp noise_std'))
    with (NerfModel.architecture hp).
  lockstep ext; reflexivity.
Qed.

(** ** The network calls *)

(** Against the components of the specification, [apply] returns as soon
    as the ray sampler accepts the clip planes. *)
Lemma apply_returns_if_sampler_answers (ext : Externals)
  (hp : NerfModel.Hyper) (rng_0 rng_1 : PRNGKey) (rays : tensor 2) :
  (forall key,
     model_utils.sample_along_rays ext key (NerfModel.ray_part rays)
       (NerfModel.num_coarse_samples hp) (NerfModel.near hp)
       (NerfModel.far hp) (NerfModel.randomized hp) (NerfModel.lindisp hp)
     <> None) ->
  exists ret,
    run (spec_handler ext) (NerfModel.apply hp rng_0 rng_1 rays) = Returned ret.
Proof.
  intros Hs.
  run_apply (spec_handler ext);
    try (cbn [spec_handler] in *; discriminate);
    try (eexists; reflexivity).
  all: match goal with
       | E : spec_handler _ (sample_along_rays ?k _ _ _ _ _ _) = None |- _ =>
           cbn [spec_handler] in E; contradiction (Hs k E)
       end.
Qed.

Lemma linear_sampler_answers (ext : Externals) (key : PRNGKey)
  (rays : tensor 2) (n : Z) (near far : R) (randomized : bool) :
  model_utils.sample_along_rays ext key rays n near far randomized false
  <> None.
Proof.
  unfold model_utils.sample_along_rays.
  destruct (traverse_Forall
              (fun b => model_utils.ray_depths ext key b n near far randomized
                          false)
              (fun _ => True) (seq 0 (length rays))) as [z [-> _]];
    [| discriminate].
  intros b _. unfold model_utils.ray_depths.
  destruct (traverse_Forall
              (fun i =>
                 model_utils.depth_at near far false
                   (model_utils.bin_position (Z.to_nat n)
                      (if randomized then uniform ext key [b; i] else 1 / 2)
                      i))
              (fun _ => True) (seq 0 (Z.to_nat n))) as [zs [-> _]].
  - intros i _. eexists. split; [reflexivity | exact I].
  - exists zs. split; [reflexivity | exact I].
Qed.

Lemma network_calls_keywords
  (h : handler) (hp : NerfModel.Hyper) (rng_0 rng_1 : PRNGKey)
  (rays : tensor 2) :
  let kws := pick mlp_kwargs (events h (NerfModel.apply hp rng_0 rng_1 rays)) in
  match run h (NerfModel.apply hp rng_0 rng_1 rays) with
  | Returned _ =>
      kws = NerfModel.architecture hp
            :: (if (0 <? NerfModel.num_fine_samples hp)%Z
                then [no_kwargs] else [])
  | Raised _ =>
      kws = [] \/ kws = [NerfModel.architecture hp]
      \/ kws = [NerfModel.architecture hp; no_kwargs]
  end.
Proof.
  intros kws. subst kws. run_apply h; cbn; auto.
Qed.

(** C2, as the code has it: on the sample configuration (four layers of
    width 128, fine samples requested) the run returns, its coarse network
    call carries the eight configured architecture keywords and its fine
    network call carries none; and so for every configuration and every
    handler: the keyword sets of the two calls always differ. *)
Theorem fine_call_leaves_out_architecture :
  (let run_it :=
     run (spec_handler sample_ext)
       (NerfModel.apply sample_hyper (0, 0)%Z (0, 1)%Z sample_rays) in
   let kws :=
     pick mlp_kwargs
       (events (spec_handler sample_ext)
          (NerfModel.apply sample_hyper (0, 0)%Z (0, 1)%Z sample_rays)) in
   (exists ret, run_it = Returned ret)
   /\ kws = [NerfModel.architecture sample_hyper; no_kwargs]
   /\ kw_net_depth (NerfModel.architecture sample_hyper) = Some 4%Z
   /\ kw_net_width (NerfModel.architecture sample_hyper) = Some 128%Z
   /\ kw_net_depth no_kwargs = None
   /\ kw_net_width no_kwargs = None)
  /\ forall (h : handler) (hp : NerfModel.Hyper) (rng_0 rng_1 : PRNGKey)
       (rays : tensor 2),
       let kws :=
         pick mlp_kwargs (events h (NerfModel.apply hp rng_0 rng_1 rays)) in
       NerfModel.architecture hp <> no_kwargs
       /\ match run h (NerfModel.apply hp rng_0 rng_1 rays) with
          | Returned _ =>
              kws = NerfModel.architecture hp
                    :: (if (0 <? NerfModel.num_fine_samples hp)%Z
                        then [no_kwargs] else [])
          | Raised _ =>
              kws = [] \/ kws = [NerfModel.architecture hp]
              \/ kws = [NerfModel.architecture hp; no_kwargs]
          end.
Proof.
  split.
  - cbv zeta.
    destruct (apply_returns_if_sampler_answers sample_ext sample_hyper
                (0, 0)%Z (0, 1)%Z sample_rays) as [ret Hret].
    { intros key. apply linear_sampler_answers. }
    pose proof (network_calls_keywords (spec_handler sample_ext) sample_hyper
                  (0, 0)%Z (0, 1)%Z sample_rays) as Hk.
    cbv zeta in Hk. rewrite Hret in Hk.
    split; [exists ret; exact Hret |]. split; [exact Hk |].
    repeat split.
  - intros h hp rng_0 rng_1 rays kws. subst kws.
    split; [apply architecture_not_empty | apply network_calls_keywords].
Qed.

(** ** Worked instances *)

Lemma nerf_checks_activations_at_construction_witness :
  sample_nn (FLAGS.net_activation sample_flags) = Some (fun x => Rmax 0 x)
  /\ sample_nn (FLAGS.rgb_activation sample_flags)
     = Some (fun x => / (1 + exp (- x)))
  /\ sample_nn (FLAGS.sigma_activation sample_flags)
     = Some (fun x => Rmax 0 x)
  /\ exists hp,
       nerf sample_nn (0, 0)%Z sample_flags = inr hp
       /\ NerfModel.rgb_activation hp = (fun x => / (1 + exp (- x))).
Proof.
  split; [reflexivity|]. split; [reflexivity|]. split; [reflexivity|].
  destruct (nerf_checks_activations_at_construction sample_nn (0, 0)%Z
              sample_flags _ _ _ eq_refl eq_refl eq_refl)
    as [Hiff [_ [Hbuilt _]]].
  destruct (nerf sample_nn (0, 0)%Z sample_flags) as [e | hp] eqn:E.
  - exfalso.
    assert (Hbad : out_of_range (fun x => / (1 + exp (- x)))
                     (fun x => Rmax 0 x)).
    { apply Hiff. exists e. reflexivity. }
    destruct Hbad as [[x [_ Hx]] | [x [_ Hx]]].
    + pose proof (exp_pos (- x)) as Hp.
      assert (0 < / (1 + exp (- x))) by (apply Rinv_0_lt_compat; lra).
      assert (/ (1 + exp (- x)) < 1).
      { rewrite <- Rinv_1 at 2. apply Rinv_lt_contravar; lra. }
      lra.
    + pose proof (Rmax_l 0 x). lra.
  - exists hp. split; [reflexivity | apply (Hbuilt hp eq_refl)].
Defined.

Lemma renderer_stays_in_unit_range_witness :
  let rgb := [[1; 0; 0]; [0; 1; 0]] in
  let sigma := [1; 2] in
  let t := [2; 3] in
  let dir := [0; 0; 1] in
  Forall (Forall unit_interval) rgb
  /\ Forall (Rle 0) sigma
  /\ Sorted Rle t
  /\ unit_interval (Rsum (model_utils.compositing_weights sigma t dir)).
Proof.
  cbv zeta.
  assert (H1 : Forall (Forall unit_interval) [[1; 0; 0]; [0; 1; 0]]).
  { repeat (constructor; try (unfold unit_interval; lra)). }
  assert (H2 : Forall (Rle 0) [1; 2]).
  { repeat (constructor; try lra). }
  assert (H3 : Sorted Rle [2; 3]).
  { repeat (constructor; try lra). }
  split; [exact H1|]. split; [exact H2|]. split; [exact H3|].
  exact (proj1 (proj2 (proj2
           (renderer_stays_in_unit_range _ _ _ [0; 0; 1] true H1 H2 H3)))).
Defined.

Lemma sampler_depths_increase_within_clip_range_witness :
  (forall k ix, 0 <= uniform sample_ext k ix < 1)
  /\ 2 < 6
  /\ (true = true -> 0 < 2 * 6)
  /\ exists z_vals points,
       model_utils.sample_along_rays sample_ext (0, 0)%Z sample_rays 64 2 6
         true true = Some (z_vals, points)
       /\ length z_vals = length sample_rays
       /\ Forall
            (fun zs =>
               length zs = Z.to_nat 64
               /\ StronglySorted Rlt zs
               /\ Forall (fun z => Rmin 2 6 <= z <= Rmax 2 6) zs)
            z_vals.
Proof.
  assert (H1 : forall k ix, 0 <= uniform sample_ext k ix < 1).
  { intros k ix. cbn [uniform sample_ext]. lra. }
  assert (H2 : 2 < 6) by lra.
  assert (H3 : true = true -> 0 < 2 * 6) by (intros _; lra).
  split; [exact H1|]. split; [exact H2|]. split; [exact H3|].
  exact (sampler_depths_increase_within_clip_range sample_ext (0, 0)%Z
           sample_rays 64 2 6 true true H1 H2 H3).
Defined.


Lemma unrandomized_apply_ignores_keys_and_noise_witness :
  NerfModel.randomized sample_hyper = false
  /\ returned (run (spec_handler sample_ext)
                 (NerfModel.apply sample_hyper (0, 0)%Z (0, 1)%Z sample_rays))
     = returned (run (spec_handler sample_ext)
                   (NerfModel.apply (with_noise_std sample_hyper 1)
                      (7, 0)%Z (7, 1)%Z sample_rays)).
Proof.
  split; [reflexivity|].
  exact (proj1 (unrandomized_apply_ignores_keys_and_noise sample_ext
                  sample_hyper (0, 0)%Z (0, 1)%Z (7, 0)%Z (7, 1)%Z 1
                  sample_rays eq_refl)).
Defined.

Lemma resampler_gets_midpoints_and_interior_weights_witness :
  (0 + 1 < length [2; 3; 5])%nat
  /\ nth 0 (midpoints_row [2; 3; 5]) 0
     = 1 / 2 * (nth (0 + 1) [2; 3; 5] 0 + nth 0 [2; 3; 5] 0)
  /\ (0 + 2 < length [1; 4; 9])%nat
  /\ nth 0 (pyslice (Some 1%Z) (Some (-1)%Z) [1; 4; 9]) 0
     = nth (0 + 1) [1; 4; 9] 0.
Proof.
  destruct (resampler_gets_midpoints_and_interior_weights
              (spec_handler sample_ext) sample_hyper (0, 0)%Z (0, 1)%Z
              sample_rays) as [_ [_ [_ [Hmid [_ [Hint _]]]]]].
  assert (H1 : (0 + 1 < length [2; 3; 5])%nat) by (cbn; lia).
  assert (H2 : (0 + 2 < length [1; 4; 9])%nat) by (cbn; lia).
  split; [exact H1|]. split; [exact (proj2 (Hmid [2; 3; 5]) 0%nat H1)|].
  split; [exact H2|]. exact (proj2 (Hint [1; 4; 9]) 0%nat H2).
Defined.



(** * Further properties of [nerf/models.py] *)

(** ** Random keys *)

(** X1: in a returning run every stochastic call receives the first key
    of its own [random.split]: the coarse sampler and the coarse noise draw
    from a chain of splits that starts at [rng_0], the resampler and the
    fine noise from a chain that starts at [rng_1], and without a fine pass
    [rng_1] is never split. *)
Theorem every_stochastic_call_gets_a_fresh_split
  (h : handler) (hp : NerfModel.Hyper) (rng_0 rng_1 : PRNGKey)
  (rays : tensor 2) :
  let ev := events h (NerfModel.apply hp rng_0 rng_1 rays) in
  match run h (NerfModel.apply hp rng_0 rng_1 rays) with
  | Returned _ =>
      if (0 <? NerfModel.num_fine_samples hp)%Z then
        exists a b c d,
          pick split_reply ev = [a; b; c; d]
          /\ pick split_arg ev = [rng_0; snd a; rng_1; snd c]
          /\ pick sampler_key ev = [fst a]
          /\ pick noise_key ev = [fst b; fst d]
          /\ pick resampler_key ev = [fst c]
      else
        exists a b,
          pick split_reply ev = [a; b]
          /\ pick split_arg ev = [rng_0; snd a]
          /\ pick sampler_key ev = [fst a]
          /\ pick noise_key ev = [fst b]
          /\ pick resampler_key ev = []
  | Raised c => h c = None
  end.
Proof.
  intros ev. subst ev. run_apply h; try assumption; cbn.
  all: repeat eexists.
Qed.

(** ** From the network to the renderer *)

(** X2: in a returning run the network sees the encoded points of the
    sampler and of the resampler, the noise regularizer sees the raw
    densities the network answered, and the renderer sees the color
    activation of the raw colors and the density activation of the noised
    densities: the noise is added before the activation, in both passes. *)
Theorem network_noise_activation_renderer_in_order
  (h : handler) (hp : NerfModel.Hyper) (rng_0 rng_1 : PRNGKey)
  (rays : tensor 2) :
  let ev := events h (NerfModel.apply hp rng_0 rng_1 rays) in
  match run h (NerfModel.apply hp rng_0 rng_1 rays) with
  | Returned _ =>
      pick encoded_points ev
      = map (fun p => (p, NerfModel.deg_point hp))
          (pick sampler_points ev ++ pick resampled_points ev)
      /\ pick mlp_samples ev = pick points_encoding ev
      /\ pick noise_args ev
         = map (fun raw => (snd raw, NerfModel.noise_std hp,
                            NerfModel.randomized hp))
             (pick mlp_reply ev)
      /\ pick rendering_inputs ev
         = zip_with
             (fun raw noised =>
                (tmap (NerfModel.rgb_activation hp) 3 (fst raw),
                 tmap (NerfModel.sigma_activation hp) 3 noised,
                 NerfModel.white_bkgd hp))
             (pick mlp_reply ev) (pick noise_reply ev)
      /\ length (pick mlp_reply ev) = length (pick noise_reply ev)
  | Raised c => h c = None
  end.
Proof.
  intros ev. subst ev. run_apply h; try assumption; cbn; auto.
Qed.

(** ** The fine pass and the coarse result *)

(** X3: without a fine pass ([num_fine_samples <= 0]) [apply] does not
    read [rng_1] at all. *)
Theorem coarse_only_rendering_ignores_second_key
  (hp : NerfModel.Hyper) (rng_0 rng_1 rng_1' : PRNGKey) (rays : tensor 2) :
  (NerfModel.num_fine_samples hp <= 0)%Z ->
  NerfModel.apply hp rng_0 rng_1 rays = NerfModel.apply hp rng_0 rng_1' rays.
Proof.
  intros Hn. unfold NerfModel.apply.
  destruct (Z.ltb_spec 0 (NerfModel.num_fine_samples hp)); [lia | reflexivity].
Qed.

Ltac both_runs h :=
  repeat (cbn [result bind call] in *;
          first
            [ match goal with
              | H : context [match ?r with pair _ _ => _ end] |- _ =>
                  is_var r; destruct r
              | |- context [match ?r with pair _ _ => _ end] =>
                  is_var r; destruct r
              | H : context [if NerfModel.use_viewdirs ?hp then _ else _]
                |- _ => destruct (NerfModel.use_viewdirs hp)
              | H : context [if (0 <? ?n)%Z then _ else _] |- _ =>
                  destruct (0 <? n)%Z
              | H : context [match h ?c with _ => _ end] |- _ =>
                  let r := fresh "r" in
                  destruct (h c) as [r|]; [simpl in r|]
              end ]).

(** X4: asking for a fine pass does not change the coarse result: when a
    run returns, the run with [num_fine_samples = 0] against the same
    handler returns exactly its first element, whatever [rng_1]. *)
Theorem fine_pass_leaves_coarse_result_alone
  (h : handler) (hp : NerfModel.Hyper) (rng_0 rng_1 rng_1' : PRNGKey)
  (rays : tensor 2) (ret : list RenderResult) :
  returned (run h (NerfModel.apply hp rng_0 rng_1 rays)) = Some ret ->
  returned (run h (NerfModel.apply (with_num_fine_samples hp 0) rng_0 rng_1'
                     rays))
  = Some (firstn 1 ret).
Proof.
  rewrite !returned_run. unfold NerfModel.apply.
  cbn [with_num_fine_samples NerfModel.num_coarse_samples
       NerfModel.num_fine_samples
       NerfModel.use_viewdirs NerfModel.near NerfModel.far NerfModel.noise_std
       NerfModel.randomized NerfModel.white_bkgd NerfModel.deg_point
       NerfModel.deg_view NerfModel.lindisp NerfModel.rgb_activation
       NerfModel.sigma_activation].
  change (NerfModel.architecture (with_num_fine_samples hp 0))
    with (NerfModel.architecture hp).
  change (0 <? 0)%Z with false.
  intros H. both_runs h; try discriminate; inversion H; reflexivity.
Qed.

(** ** Splitting the ray array *)

Lemma zip_with_map_same {A B C D : Type} (f : B -> C -> D) (g : A -> B)
  (k : A -> C) (l : list A) :
  zip_with f (map g l) (map k l) = map (fun a => f (g a) (k a)) l.
Proof.
  unfold zip_with. induction l as [|a l IH]; cbn; [reflexivity|].
  f_equal. exact IH.
Qed.

Lemma pyslice_drop3 {A : Type} (r : list A) :
  pyslice None (Some (-3)%Z) r = firstn (length r - 3) r.
Proof. exact (pyslice_drop_last 3 r ltac:(lia)). Qed.

Lemma pyslice_last3 {A : Type} (r : list A) :
  pyslice (Some (-3)%Z) None r = skipn (length r - 3) r.
Proof. exact (pyslice_last 3 r ltac:(lia)). Qed.

Lemma pyslice_3_6 {A : Type} (r : list A) :
  pyslice (Some 3%Z) (Some 6%Z) r = firstn 3 (skipn 3 r).
Proof. exact (pyslice_range 3 6 r). Qed.

(** X5: splitting wide rays loses nothing: each ray is its retained part
    followed by its view direction. *)
Theorem wide_rays_split_without_loss (rays : tensor 2) :
  (6 < shape_last 1 rays)%nat ->
  zip_with (@app R) (NerfModel.ray_part rays) (NerfModel.view_part rays)
  = rays.
Proof.
  intros Hw. unfold NerfModel.ray_part, NerfModel.view_part.
  destruct (Nat.ltb_spec 6 (shape_last 1 rays)); [|lia].
  unfold slice_last. cbn [last_axis].
  rewrite zip_with_map_same. rewrite <- (map_id rays) at 2.
  apply map_ext. intros r.
  rewrite pyslice_drop3, pyslice_last3. apply firstn_skipn.
Qed.

(** X6: for a batch of rays of width [w], the rays kept for sampling have
    width [w - 3] when [w > 6] and [w] otherwise, so the direction handed
    to the renderer has three components for [w = 6] and [w >= 9], where it
    is components 3:6 of the input, and fewer for the widths in between and
    below 6. *)
Theorem renderer_direction_width (rays : tensor 2) (w : nat) :
  rays <> [] ->
  Forall (fun r => length r = w) rays ->
  let kept := if (6 <? w)%nat then (w - 3)%nat else w in
  Forall (fun r => length r = kept) (NerfModel.ray_part rays)
  /\ Forall (fun d => length d = Nat.min 3 (kept - 3))
       (slice_last (Some 3%Z) (Some 6%Z) (NerfModel.ray_part rays))
  /\ (w = 6%nat \/ (9 <= w)%nat ->
      slice_last (Some 3%Z) (Some 6%Z) (NerfModel.ray_part rays)
      = slice_last (Some 3%Z) (Some 6%Z) rays).
Proof.
  intros Hne Hall kept.
  assert (Hw : shape_last 1 rays = w).
  { destruct rays as [|r rays]; [contradiction|].
    cbn. apply (Forall_inv Hall). }
  unfold NerfModel.ray_part. rewrite Hw. subst kept.
  unfold slice_last. cbn [last_axis].
  destruct (Nat.ltb_spec 6 w) as [Hwide | Hnarrow].
  - split; [| split].
    + apply Forall_map. eapply Forall_impl; [| exact Hall].
      intros r Hr. cbn beta in *. rewrite pyslice_drop3, length_firstn. lia.
    + rewrite map_map. apply Forall_map. eapply Forall_impl; [| exact Hall].
      intros r Hr. cbn beta in *.
      rewrite pyslice_3_6, pyslice_drop3.
      rewrite length_firstn, length_skipn, length_firstn. lia.
    + intros [-> | H9]; [lia|].
      rewrite map_map. apply map_ext_in. intros r Hr.
      rewrite Forall_forall in Hall. specialize (Hall r Hr).
      rewrite pyslice_drop3, !pyslice_3_6.
      rewrite skipn_firstn_comm, firstn_firstn. f_equal. lia.
  - split; [| split].
    + exact Hall.
    + apply Forall_map. eapply Forall_impl; [| exact Hall].
      intros r Hr. cbn beta in *.
      rewrite pyslice_3_6, length_firstn, length_skipn. lia.
    + reflexivity.
Qed.

(** ** The probe of [nerf] *)

Lemma exp_le (x y : R) : x <= y -> exp x <= exp y.
Proof.
  intros [Hlt | ->]; [left; apply exp_increasing, Hlt | right; reflexivity].
Qed.

Lemma linspace_bounds (t : R) :
  In t (linspace (-90) 90 1024) -> -90 <= t <= 90.
Proof.
  unfold linspace. intros Hin. apply in_map_iff in Hin.
  destruct Hin as [i [<- Hi]]. apply in_seq in Hi.
  change (1024 - 1)%nat with 1023%nat.
  assert (Hn : 0 < INR 1023) by (apply lt_0_INR; lia).
  assert (Hi0 : 0 <= INR i) by apply pos_INR.
  assert (Hi1 : INR i <= INR 1023) by (apply le_INR; lia).
  assert (Hq : 0 <= INR i / INR 1023 <= 1).
  { split.
    - apply Rmult_le_pos; [exact Hi0 | left; apply Rinv_0_lt_compat, Hn].
    - apply (Rmult_le_reg_r (INR 1023)); [exact Hn|].
      unfold Rdiv. rewrite Rmult_assoc, Rinv_l by lra. lra. }
  replace (INR i * ((90 - -90) / INR 1023)) with (180 * (INR i / INR 1023))
    by (field; lra).
  lra.
Qed.

Lemma linspace_last : In 90 (linspace (-90) 90 1024).
Proof.
  unfold linspace. apply in_map_iff. exists 1023%nat. split.
  - change (1024 - 1)%nat with 1023%nat.
    assert (Hn : 0 < INR 1023) by (apply lt_0_INR; lia).
    field. lra.
  - apply in_seq. lia.
Qed.

Lemma probe_inputs_bounds (x : R) :
  In x probe_inputs -> - exp 90 <= x <= exp 90.
Proof.
  unfold probe_inputs. cbv zeta. intros Hin.
  pose proof (exp_pos 90) as H90.
  apply in_app_or in Hin. destruct Hin as [Hin | Hin].
  - apply in_map_iff in Hin. destruct Hin as [y [<- Hy]].
    apply in_rev in Hy. apply in_map_iff in Hy. destruct Hy as [t [<- Ht]].
    pose proof (exp_pos t). pose proof (exp_le t 90 (proj2 (linspace_bounds t Ht))).
    lra.
  - apply in_map_iff in Hin. destruct Hin as [t [<- Ht]].
    pose proof (exp_pos t). pose proof (exp_le t 90 (proj2 (linspace_bounds t Ht))).
    lra.
Qed.

Lemma probe_inputs_top : In (exp 90) probe_inputs.
Proof.
  unfold probe_inputs. cbv zeta. apply in_or_app. right.
  apply in_map, linspace_last.
Qed.

Lemma probe_inputs_bottom : In (- exp 90) probe_inputs.
Proof.
  unfold probe_inputs. cbv zeta. apply in_or_app. left.
  apply in_map. apply -> in_rev. apply in_map, linspace_last.
Qed.

(** X7: activations within range on [[-e^90, e^90]] are never rejected,
    and for activations that never decrease the probe is complete there: a
    model is built only if the color activation stays in [[0,1]] and the
    density activation stays non-negative on the whole interval. *)
Theorem probe_decides_range_of_monotone_activations
  (nn : string -> option (R -> R)) (key : PRNGKey) (args : FLAGS.t)
  (f_net f_rgb f_sigma : R -> R) :
  nn (FLAGS.net_activation args) = Some f_net ->
  nn (FLAGS.rgb_activation args) = Some f_rgb ->
  nn (FLAGS.sigma_activation args) = Some f_sigma ->
  let within :=
    forall x, - exp 90 <= x <= exp 90 ->
              0 <= f_rgb x <= 1 /\ 0 <= f_sigma x in
  (within -> exists hp, nerf nn key args = inr hp)
  /\ (non_decreasing f_rgb -> non_decreasing f_sigma ->
      forall hp, nerf nn key args = inr hp -> within).
Proof.
  intros Hnet Hrgb Hsigma within. subst within.
  unfold nerf, getattr. rewrite Hnet, Hrgb, Hsigma. cbv zeta.
  pose proof (rgb_out_of_range_spec f_rgb probe_inputs) as Hr.
  pose proof (sigma_negative_spec f_sigma probe_inputs) as Hs.
  split.
  - intros Hin.
    destruct (rgb_out_of_range (map f_rgb probe_inputs)).
    { destruct (proj1 Hr eq_refl) as [x [Hx Hbad]].
      destruct (Hin x (probe_inputs_bounds x Hx)) as [? _]. lra. }
    destruct (sigma_negative (map f_sigma probe_inputs)).
    { destruct (proj1 Hs eq_refl) as [x [Hx Hbad]].
      destruct (Hin x (probe_inputs_bounds x Hx)) as [_ ?]. lra. }
    eexists. reflexivity.
  - intros Mrgb Msigma hp Hbuilt x [Hlo Hhi].
    destruct (rgb_out_of_range (map f_rgb probe_inputs)) eqn:Er;
      [discriminate|].
    destruct (sigma_negative (map f_sigma probe_inputs)) eqn:Es;
      [discriminate|].
    assert (Hr' : forall y, In y probe_inputs -> 0 <= f_rgb y <= 1).
    { intros y Hy. destruct (Rlt_dec (f_rgb y) 0) as [Hl|Hl];
        [| destruct (Rlt_dec 1 (f_rgb y)) as [Hg|Hg]; [| lra]].
      - assert (false = true) by (apply Hr; eauto). discriminate.
      - assert (false = true) by (apply Hr; eauto). discriminate. }
    assert (Hs' : forall y, In y probe_inputs -> 0 <= f_sigma y).
    { intros y Hy. destruct (Rlt_dec (f_sigma y) 0) as [Hl|Hl]; [| lra].
      assert (false = true) by (apply Hs; eauto). discriminate. }
    pose proof (Hr' _ probe_inputs_top). pose proof (Hr' _ probe_inputs_bottom).
    pose proof (Hs' _ probe_inputs_bottom).
    pose proof (Mrgb _ _ Hlo). pose proof (Mrgb _ _ Hhi).
    pose proof (Msigma _ _ Hlo). lra.
Qed.

(** * Further properties of [train.py] *)

(** ** The loss *)

Lemma concat_map_combine {A B C : Type} (f : A * B -> C)
  (l : list (list A * list B)) :
  concat (map (fun p => map f (combine (fst p) (snd p))) l)
  = map f (concat (map (fun p => combine (fst p) (snd p)) l)).
Proof.
  induction l as [|p l IH]; cbn [map concat]; [reflexivity|].
  rewrite map_app, IH. reflexivity.
Qed.

Lemma squared_error_compared (rgb pixels : tensor 2) :
  concat (Train.squared_error rgb (slice_last None (Some 3%Z) pixels))
  = map (fun p => (fst p - snd p) ^ 2) (compared rgb pixels).
Proof.
  unfold compared, Train.squared_error, zip_with.
  apply (concat_map_combine (fun p : R * R => (fst p - snd p) ^ 2)).
Qed.

Lemma Rsum_squares (l : list (R * R)) :
  0 <= Rsum (map (fun p => (fst p - snd p) ^ 2) l)
  /\ (Rsum (map (fun p => (fst p - snd p) ^ 2) l) = 0
      <-> Forall (fun p => fst p = snd p) l).
Proof.
  induction l as [|p l [IH0 IH]]; cbn [map Rsum fold_right].
  - split; [lra | split; [constructor | reflexivity]].
  - fold (Rsum (map (fun p => (fst p - snd p) ^ 2) l)).
    assert (Hsq : 0 <= (fst p - snd p) ^ 2) by (apply pow2_ge_0).
    split; [lra|]. split.
    + intros H.
      assert (H1 : (fst p - snd p) ^ 2 = 0) by lra.
      assert (H2 : Rsum (map (fun p => (fst p - snd p) ^ 2) l) = 0) by lra.
      constructor; [| apply IH, H2].
      destruct (Req_dec (fst p - snd p) 0) as [E | E]; [lra|].
      contradiction (pow_nonzero _ 2 E).
    + intros H. inversion H as [|? ? Hp Hl]; subst.
      rewrite Hp, (proj2 IH Hl). ring.
Qed.

(** X8: the mean squared error of [loss_fn] is non-negative and vanishes
    exactly when every compared color component equals its target. *)
Theorem mse_vanishes_exactly_on_a_match (rgb pixels : tensor 2) :
  compared rgb pixels <> [] ->
  0 <= Train.mse rgb pixels
  /\ (Train.mse rgb pixels = 0
      <-> Forall (fun p => fst p = snd p) (compared rgb pixels)).
Proof.
  intros Hne. unfold Train.mse, Train.mean.
  rewrite squared_error_compared, length_map.
  destruct (Rsum_squares (compared rgb pixels)) as [H0 Hiff].
  assert (Hn : 0 < INR (length (compared rgb pixels))).
  { apply lt_0_INR. destruct (compared rgb pixels); [contradiction | cbn; lia]. }
  split.
  - apply Rmult_le_pos; [exact H0 | left; apply Rinv_0_lt_compat, Hn].
  - rewrite <- Hiff. split.
    + intros H. apply (Rmult_eq_reg_r (/ INR (length (compared rgb pixels)))).
      * rewrite Rmult_0_l. exact H.
      * apply Rinv_neq_0_compat. lra.
    + intros ->. unfold Rdiv. ring.
Qed.

(** X9: when [loss_fn] returns, the differentiated scalar is the sum of the
    losses it reports, the reports follow the predictions from last to
    first, and no reported loss exceeds the scalar. *)
Theorem objective_is_the_sum_of_the_reported_losses (Rays : Type)
  (compute_psnr : R -> R) (key_0 key_1 : PRNGKey) (batch : Train.Batch Rays)
  (model : PRNGKey -> PRNGKey -> Rays -> list RenderResult)
  (total : R) (stats : list Train.Stats) :
  Train.loss_fn Rays compute_psnr key_0 key_1 batch model
  = inr (total, stats) ->
  let ret := model key_0 key_1 (Train.rays Rays batch) in
  total = Rsum (map Train.loss stats)
  /\ stats = map (stats_of compute_psnr (Train.pixels Rays batch)) (rev ret)
  /\ (Forall (fun r => compared (color r) (Train.pixels Rays batch) <> []) ret ->
      0 <= total
      /\ Forall (fun s => 0 <= Train.loss s <= total) stats).
Proof.
  rewrite loss_fn_cases. intros H ret. subst ret.
  destruct (model key_0 key_1 (Train.rays Rays batch)) as [|a [|b [|c r]]];
    try discriminate; injection H as <- <-; cbn [map rev app Rsum fold_right
      stats_of Train.loss].
  - split; [ring|]. split; [reflexivity|]. intros Hall.
    destruct (mse_vanishes_exactly_on_a_match _ _ (Forall_inv Hall)) as [H0 _].
    split; [lra|]. constructor; [unfold stats_of; cbn [Train.loss]; lra | constructor].
  - split; [ring|]. split; [reflexivity|]. intros Hall.
    destruct (mse_vanishes_exactly_on_a_match _ _ (Forall_inv Hall)) as [H0 _].
    destruct (mse_vanishes_exactly_on_a_match _ _
                (Forall_inv (Forall_inv_tail Hall))) as [H1 _].
    split; [lra|].
    constructor; [unfold stats_of; cbn [Train.loss]; lra |].
    constructor; [unfold stats_of; cbn [Train.loss]; lra | constructor].
Qed.

Lemma firstn_app_long {A : Type} (n : nat) (l e : list A) :
  (n <= length l)%nat -> firstn n (l ++ e) = firstn n l.
Proof.
  intros H. rewrite firstn_app. replace (n - length l)%nat with 0%nat by lia.
  cbn. apply app_nil_r.
Qed.

(** X10: channels of the target pixels beyond the third, such as an alpha
    channel, do not enter the loss. *)
Theorem loss_ignores_channels_beyond_the_third (rgb pixels extra : tensor 2) :
  length extra = length pixels ->
  Forall (fun r => (3 <= length r)%nat) pixels ->
  Train.mse rgb (zip_with (@app R) pixels extra) = Train.mse rgb pixels.
Proof.
  intros Hlen Hall. unfold Train.mse. f_equal. f_equal.
  unfold slice_last. cbn [last_axis]. unfold zip_with. rewrite map_map.
  revert extra Hlen. induction Hall as [|r pixels Hr Hall IH];
    intros extra Hlen; destruct extra as [|e extra]; try discriminate;
    cbn [combine map]; [reflexivity|].
  f_equal; [| apply IH; cbn in Hlen; lia].
  cbn [fst snd]. change (Some 3%Z) with (Some (Z.of_nat 3)).
  unfold pyslice, slice_bound. cbn [Z.ltb Z.of_nat Z.compare Pos.of_succ_nat
    Pos.succ]. rewrite !Nat.sub_0_r. cbn [skipn].
  rewrite length_app.
  replace (Nat.min (length r + length e) (Z.to_nat 3)) with 3%nat by lia.
  replace (Nat.min (length r) (Z.to_nat 3)) with 3%nat by lia.
  apply firstn_app_long, Hr.
Qed.

(** ** The training loop *)

Lemma trained_app (l r : list Main.Effect) :
  Main.trained (l ++ r) = Main.trained l ++ Main.trained r.
Proof. apply flat_map_app. Qed.

Lemma rendered_at_app (l r : list Main.Effect) :
  Main.rendered_at (l ++ r) = Main.rendered_at l ++ Main.rendered_at r.
Proof. apply flat_map_app. Qed.

Lemma saved_app (l r : list Main.Effect) :
  Main.saved (l ++ r) = Main.saved l ++ Main.saved r.
Proof. apply flat_map_app. Qed.

Lemma averaged_app (l r : list Main.Effect) :
  Main.averaged (l ++ r) = Main.averaged l ++ Main.averaged r.
Proof. apply flat_map_app. Qed.

Lemma summarized_app (l r : list Main.Effect) :
  Main.summarized (l ++ r) = Main.summarized l ++ Main.summarized r.
Proof. apply flat_map_app. Qed.

Lemma py_mod_defined (a b : Z) :
  b <> 0%Z -> Main.py_mod a b = ([], inr (a mod b)%Z).
Proof.
  intros Hb. unfold Main.py_mod. destruct (Z.eqb_spec b 0); [contradiction|].
  reflexivity.
Qed.

Section LoopFacts.

Variable FLAGS : Main.Flags.
Variable host_id : Z.
Hypothesis gc_ok : Main.gc_every FLAGS <> 0%Z.
Hypothesis log_ok :
  host_id = 0%Z ->
  Main.print_every FLAGS <> 0%Z /\ Main.save_every FLAGS <> 0%Z.

(** One iteration, when no divisor is zero. *)
Lemma body_completes (carried : Main.Carried) (step : Z) :
  exists log trace,
    Main.body FLAGS host_id carried step
    = (log, inr {| Main.state_step := (Main.state_step carried + 1)%Z;
                   Main.stats_trace := trace |})
    /\ Main.trained log = [step]
    /\ Main.rendered_at log
       = (if (0 <? Main.render_every FLAGS)%Z
          then Main.multiples (Main.render_every FLAGS) [step] else [])
    /\ Main.saved log
       = (if (host_id =? 0)%Z
          then map (fun _ => (Main.state_step carried + 1)%Z)
                 (Main.multiples (Main.save_every FLAGS) [step])
          else [])
    /\ Main.averaged log ++ trace
       = (if (host_id =? 0)%Z then Main.stats_trace carried ++ [step]
          else Main.stats_trace carried)
    /\ (host_id <> 0%Z -> Main.summarized log = [])
    /\ (host_id = 0%Z -> (step mod Main.print_every FLAGS)%Z = 0%Z ->
        trace = []).
Proof.
  unfold Main.body. rewrite (py_mod_defined step _ gc_ok).
  assert (Hrender : (0 <? Main.render_every FLAGS)%Z = true ->
                    Main.py_mod step (Main.render_every FLAGS)
                    = ([], inr (step mod Main.render_every FLAGS)%Z)).
  { intros H. apply py_mod_defined. apply Z.ltb_lt in H. lia. }
  unfold Main.multiples. cbn [filter].
  destruct (Z.eqb_spec host_id 0) as [H0 | H0].
  - destruct (log_ok H0) as [Hp Hs].
    rewrite (py_mod_defined step _ Hp), (py_mod_defined step _ Hs).
    destruct (0 <? Main.render_every FLAGS)%Z;
      [rewrite (Hrender eq_refl) |];
      cbn [Main.bind Main.ret Main.tell negb];
      repeat match goal with
        | |- context [if (?a =? 0)%Z then _ else _] =>
            destruct (Z.eqb_spec a 0)
        end;
      cbn; eexists; eexists; repeat split; try reflexivity;
      try (unfold Main.averaged; cbn [flat_map app];
           rewrite ?app_nil_r; reflexivity);
      try contradiction.
  - destruct (0 <? Main.render_every FLAGS)%Z;
      [rewrite (Hrender eq_refl) |];
      cbn [Main.bind Main.ret Main.tell negb];
      repeat match goal with
        | |- context [if (?a =? 0)%Z then _ else _] =>
            destruct (a =? 0)%Z
        end;
      cbn; eexists; eexists; repeat split; try reflexivity; contradiction.
Qed.

Lemma multiples_cons (every s : Z) (l : list Z) :
  Main.multiples every (s :: l)
  = Main.multiples every [s] ++ Main.multiples every l.
Proof.
  unfold Main.multiples. cbn [filter].
  destruct (s mod every =? 0)%Z; reflexivity.
Qed.

(** The whole loop over consecutive steps. *)
Lemma for_each_completes (n : nat) :
  forall carried : Main.Carried,
    let steps := Main.count_from (Main.state_step carried + 1) n in
    exists log trace,
      Main.for_each (Main.body FLAGS host_id) steps carried
      = (log, inr {| Main.state_step :=
                       (Main.state_step carried + Z.of_nat n)%Z;
                     Main.stats_trace := trace |})
      /\ Main.trained log = steps
      /\ Main.rendered_at log
         = (if (0 <? Main.render_every FLAGS)%Z
            then Main.multiples (Main.render_every FLAGS) steps else [])
      /\ Main.saved log
         = (if (host_id =? 0)%Z
            then Main.multiples (Main.save_every FLAGS) steps else [])
      /\ Main.averaged log ++ trace
         = (if (host_id =? 0)%Z then Main.stats_trace carried ++ steps
            else Main.stats_trace carried)
      /\ (host_id <> 0%Z -> Main.summarized log = [])
      /\ (host_id = 0%Z -> (0 < n)%nat ->
          ((Main.state_step carried + Z.of_nat n)
             mod Main.print_every FLAGS)%Z = 0%Z ->
          trace = []).
Proof.
  induction n as [|n IH]; intros carried steps; subst steps.
  - cbn [Main.count_from Main.for_each]. exists [], (Main.stats_trace carried).
    rewrite Z.add_0_r. destruct carried as [s t]. cbn.
    repeat split; try reflexivity.
    + destruct (0 <? Main.render_every FLAGS)%Z; reflexivity.
    + destruct (host_id =? 0)%Z; reflexivity.
    + destruct (host_id =? 0)%Z; [rewrite app_nil_r|]; reflexivity.
    + lia.
  - cbn [Main.count_from Main.for_each].
    destruct (body_completes carried (Main.state_step carried + 1))
      as [log1 [trace1 [E1 [T1 [R1 [S1 [A1 [N1 F1]]]]]]]].
    rewrite E1. cbn [Main.bind].
    specialize (IH {| Main.state_step := (Main.state_step carried + 1)%Z;
                      Main.stats_trace := trace1 |}).
    cbn [Main.state_step Main.stats_trace] in IH.
    destruct IH as [log2 [trace2 [E2 [T2 [R2 [S2 [A2 [N2 F2]]]]]]]].
    rewrite E2.
    exists (log1 ++ log2), trace2.
    rewrite trained_app, rendered_at_app, saved_app, averaged_app.
    rewrite T1, T2, R1, R2, S1, S2.
    split; [do 3 f_equal; lia |]. split; [reflexivity |].
    split.
    { rewrite (multiples_cons (Main.render_every FLAGS) _
                 (Main.count_from (Main.state_step carried + 1 + 1) n)).
      destruct (0 <? Main.render_every FLAGS)%Z; reflexivity. }
    split.
    { rewrite (multiples_cons (Main.save_every FLAGS) _
                 (Main.count_from (Main.state_step carried + 1 + 1) n)).
      destruct (host_id =? 0)%Z; [| reflexivity]. f_equal.
      unfold Main.multiples. cbn [filter map].
      destruct ((Main.state_step carried + 1) mod Main.save_every FLAGS =? 0)%Z;
        reflexivity. }
    split.
    { rewrite <- app_assoc, A2.
      destruct (host_id =? 0)%Z.
      - rewrite app_assoc, A1, <- app_assoc. reflexivity.
      - exact A1. }
    split.
    { intros Hh. rewrite summarized_app, (N1 Hh), (N2 Hh). reflexivity. }
    intros Hh _ Hlast. destruct n as [|n].
    + cbn [Main.count_from Main.for_each Main.ret] in E2.
      injection E2 as _ _ <-. apply (F1 Hh).
      rewrite <- Hlast. f_equal; lia.
    + apply (F2 Hh); [lia|]. rewrite <- Hlast. f_equal; lia.
Qed.

End LoopFacts.

Lemma firstn_count_from (k n : nat) :
  forall a, firstn k (Main.count_from a n) = Main.count_from a (Nat.min k n).
Proof.
  revert k. induction n as [|n IH]; intros k a.
  - rewrite Nat.min_0_r. cbn. apply firstn_nil.
  - destruct k as [|k]; [reflexivity|].
    cbn [Main.count_from firstn Nat.min]. f_equal. apply IH.
Qed.

Lemma count_from_length (n : nat) (a : Z) :
  length (Main.count_from a n) = n.
Proof. revert a. induction n; intros a; cbn; [reflexivity | f_equal; auto]. Qed.

(** The steps the loop goes through. *)
Lemma loop_steps (FLAGS : Main.Flags) (restored_step : Z) (batches : nat) :
  firstn batches
    (Main.py_range (restored_step + 1) (Main.max_steps FLAGS + 1))
  = Main.count_from (restored_step + 1)
      (Nat.min batches (Z.to_nat (Main.max_steps FLAGS - restored_step))).
Proof.
  unfold Main.py_range. rewrite firstn_count_from. do 2 f_equal. lia.
Qed.

Lemma count_occ_multiples (every x : Z) (n : nat) :
  forall a,
    count_occ Z.eq_dec (Main.multiples every (Main.count_from a n)) x
    = if ((a <=? x) && (x <? a + Z.of_nat n) && (x mod every =? 0))%Z
      then 1%nat else 0%nat.
Proof.
  induction n as [|n IH]; intros a.
  - cbn. destruct (Z.leb_spec a x), (Z.ltb_spec x (a + 0)); try reflexivity.
    lia.
  - cbn [Main.count_from]. rewrite multiples_cons, count_occ_app, IH.
    unfold Main.multiples at 1. cbn [filter].
    destruct (Z.eq_dec a x) as [-> | Hne].
    + destruct (x mod every =? 0)%Z eqn:Em.
      * cbn [count_occ]. destruct (Z.eq_dec x x); [| contradiction].
        destruct (Z.leb_spec (x + 1) x); [lia|].
        destruct (Z.leb_spec x x); [|lia].
        destruct (Z.ltb_spec x (x + Z.of_nat (S n))); [|lia]. reflexivity.
      * rewrite !andb_false_r. reflexivity.
    + assert (Hc : count_occ Z.eq_dec
                     (if (a mod every =? 0)%Z then [a] else []) x = 0%nat).
      { destruct (a mod every =? 0)%Z; cbn [count_occ]; [| reflexivity].
        destruct (Z.eq_dec a x); [contradiction | reflexivity]. }
      rewrite Hc. cbn [Nat.add].
      destruct (Z.leb_spec (a + 1) x), (Z.leb_spec a x),
        (Z.ltb_spec x (a + 1 + Z.of_nat n)),
        (Z.ltb_spec x (a + Z.of_nat (S n))); try reflexivity; lia.
Qed.

Lemma last_count_from_succ (m : nat) :
  forall a d : Z, last (Main.count_from a (S m)) d = (a + Z.of_nat m)%Z.
Proof.
  induction m as [|m IH]; intros a d.
  - cbn. lia.
  - change (last (Main.count_from a (S (S m))) d)
      with (last (Main.count_from (a + 1) (S m)) d).
    rewrite IH. lia.
Qed.

Lemma last_count_from (m : nat) (r : Z) :
  (0 < m)%nat -> last (Main.count_from (r + 1) m) r = (r + Z.of_nat m)%Z.
Proof.
  destruct m as [|m]; [lia|]. intros _. rewrite last_count_from_succ. lia.
Qed.

(** X11: on host 0, with non-zero periods, the loop trains every step,
    saves the states whose step is a multiple of [save_every], and saves
    the closing state when [max_steps] is not such a multiple; a run that
    reaches [max_steps] saves the state of that step exactly once. *)
Theorem first_host_saves_multiples_and_the_last_state
  (FLAGS : Main.Flags) (restored_step : Z) (batches : nat) :
  Main.gc_every FLAGS <> 0%Z ->
  Main.print_every FLAGS <> 0%Z ->
  Main.save_every FLAGS <> 0%Z ->
  let steps :=
    firstn batches
      (Main.py_range (restored_step + 1) (Main.max_steps FLAGS + 1)) in
  exists log,
    Main.loop FLAGS 0 restored_step batches = (log, inr tt)
    /\ Main.trained log = steps
    /\ Main.saved log
       = Main.multiples (Main.save_every FLAGS) steps
         ++ (if (Main.max_steps FLAGS mod Main.save_every FLAGS =? 0)%Z
             then []
             else [(restored_step + Z.of_nat (length steps))%Z])
    /\ ((restored_step < Main.max_steps FLAGS)%Z ->
        (Z.to_nat (Main.max_steps FLAGS - restored_step) <= batches)%nat ->
        last (Main.trained log) restored_step = Main.max_steps FLAGS
        /\ count_occ Z.eq_dec (Main.saved log) (Main.max_steps FLAGS) = 1%nat).
Proof.
  intros Hgc Hprint Hsave steps. subst steps.
  unfold Main.loop. rewrite loop_steps.
  set (n := Nat.min batches (Z.to_nat (Main.max_steps FLAGS - restored_step))).
  destruct (for_each_completes FLAGS 0 Hgc (fun _ => conj Hprint Hsave) n
              {| Main.state_step := restored_step; Main.stats_trace := [] |})
    as [log [trace [E [T [_ [S _]]]]]].
  cbn [Main.state_step Main.stats_trace] in E, T, S. rewrite E.
  cbn [Main.bind]. rewrite (py_mod_defined _ _ Hsave). cbn [Main.bind].
  rewrite count_from_length.
  change (0 =? 0)%Z with true in S.
  destruct (Main.max_steps FLAGS mod Main.save_every FLAGS =? 0)%Z eqn:Em;
    cbn [negb Main.tell Main.ret].
  - exists (log ++ []). rewrite !app_nil_r. repeat split; try assumption.
    + rewrite T. subst n. rewrite Nat.min_r by lia.
      rewrite last_count_from by lia. lia.
    + rewrite S, count_occ_multiples. subst n. rewrite Nat.min_r by lia.
      rewrite Em.
      destruct (Z.leb_spec (restored_step + 1) (Main.max_steps FLAGS)); [|lia].
      destruct (Z.ltb_spec (Main.max_steps FLAGS)
                  (restored_step + 1 +
                   Z.of_nat (Z.to_nat (Main.max_steps FLAGS - restored_step))));
        [reflexivity | lia].
  - exists (log ++ [Main.save_checkpoint (restored_step + Z.of_nat n)]).
    rewrite trained_app, saved_app, S, T. cbn. rewrite !app_nil_r.
    repeat split; try reflexivity.
    + subst n. rewrite Nat.min_r by lia.
      rewrite last_count_from by lia. lia.
    + rewrite count_occ_app, count_occ_multiples, Em, andb_false_r.
      subst n. rewrite Nat.min_r by lia. cbn [count_occ].
      destruct (Z.eq_dec _ _); [reflexivity | lia].
Qed.

(** X12: a host other than 0 trains and renders like host 0 but writes no
    summary and no checkpoint inside the loop; it writes the closing
    checkpoint exactly when [max_steps] is not a multiple of [save_every],
    and never looks at [print_every]. *)
Theorem other_hosts_write_only_the_closing_checkpoint
  (FLAGS : Main.Flags) (host_id restored_step : Z) (batches : nat) :
  host_id <> 0%Z ->
  Main.gc_every FLAGS <> 0%Z ->
  Main.save_every FLAGS <> 0%Z ->
  let steps :=
    firstn batches
      (Main.py_range (restored_step + 1) (Main.max_steps FLAGS + 1)) in
  exists log,
    Main.loop FLAGS host_id restored_step batches = (log, inr tt)
    /\ Main.trained log = steps
    /\ Main.rendered_at log
       = (if (0 <? Main.render_every FLAGS)%Z
          then Main.multiples (Main.render_every FLAGS) steps else [])
    /\ Main.summarized log = []
    /\ Main.saved log
       = (if (Main.max_steps FLAGS mod Main.save_every FLAGS =? 0)%Z
          then []
          else [(restored_step + Z.of_nat (length steps))%Z]).
Proof.
  intros Hhost Hgc Hsave steps. subst steps.
  unfold Main.loop. rewrite loop_steps.
  set (n := Nat.min batches (Z.to_nat (Main.max_steps FLAGS - restored_step))).
  destruct (for_each_completes FLAGS host_id Hgc
              (fun H => False_ind _ (Hhost H)) n
              {| Main.state_step := restored_step; Main.stats_trace := [] |})
    as [log [trace [E [T [Rd [S [_ [N _]]]]]]]].
  cbn [Main.state_step Main.stats_trace] in E, T, Rd, S. rewrite E.
  cbn [Main.bind]. rewrite (py_mod_defined _ _ Hsave). cbn [Main.bind].
  rewrite count_from_length.
  destruct (Z.eqb_spec host_id 0) as [|_]; [contradiction|].
  destruct (Main.max_steps FLAGS mod Main.save_every FLAGS =? 0)%Z;
    cbn [negb Main.tell Main.ret].
  - exists (log ++ []). rewrite !app_nil_r. repeat split; auto.
  - exists (log ++ [Main.save_checkpoint (restored_step + Z.of_nat n)]).
    rewrite trained_app, rendered_at_app, summarized_app, saved_app.
    rewrite T, Rd, S, (N Hhost). cbn. rewrite !app_nil_r.
    repeat split; auto.
Qed.

(** X13: the training summaries of host 0 average the statistics of the
    trained steps in order, each at most once, and each exactly once when
    the run reaches a [max_steps] that is a multiple of [print_every]. *)
Theorem summaries_average_each_step_once
  (FLAGS : Main.Flags) (restored_step : Z) (batches : nat) :
  Main.gc_every FLAGS <> 0%Z ->
  Main.print_every FLAGS <> 0%Z ->
  Main.save_every FLAGS <> 0%Z ->
  exists log,
    Main.loop FLAGS 0 restored_step batches = (log, inr tt)
    /\ (exists rest, Main.trained log = Main.averaged log ++ rest)
    /\ ((restored_step < Main.max_steps FLAGS)%Z ->
        (Z.to_nat (Main.max_steps FLAGS - restored_step) <= batches)%nat ->
        (Main.max_steps FLAGS mod Main.print_every FLAGS)%Z = 0%Z ->
        Main.averaged log = Main.trained log).
Proof.
  intros Hgc Hprint Hsave.
  unfold Main.loop. rewrite loop_steps.
  set (n := Nat.min batches (Z.to_nat (Main.max_steps FLAGS - restored_step))).
  destruct (for_each_completes FLAGS 0 Hgc (fun _ => conj Hprint Hsave) n
              {| Main.state_step := restored_step; Main.stats_trace := [] |})
    as [log [trace [E [T [_ [_ [A [_ F]]]]]]]].
  cbn [Main.state_step Main.stats_trace] in E, T, A, F. rewrite E.
  cbn [Main.bind]. rewrite (py_mod_defined _ _ Hsave). cbn [Main.bind].
  change (0 =? 0)%Z with true in A. cbn [app] in A.
  assert (Hflush : (restored_step < Main.max_steps FLAGS)%Z ->
                   (Z.to_nat (Main.max_steps FLAGS - restored_step)
                    <= batches)%nat ->
                   (Main.max_steps FLAGS mod Main.print_every FLAGS)%Z = 0%Z ->
                   Main.averaged log = Main.trained log).
  { intros H1 H2 H3. rewrite T, <- A.
    rewrite (F eq_refl); [symmetry; apply app_nil_r | subst n; lia |].
    subst n. rewrite Nat.min_r by lia. rewrite <- H3. f_equal. lia. }
  destruct (Main.max_steps FLAGS mod Main.save_every FLAGS =? 0)%Z;
    cbn [negb Main.tell Main.ret]; eexists; (split; [reflexivity |]);
    rewrite ?trained_app, ?averaged_app; cbn; rewrite ?app_nil_r;
    (split; [exists trace; rewrite T; symmetry; exact A | exact Hflush]).
Qed.

(** X14: with [gc_every = 0] the loop raises [ZeroDivisionError] right
    after its first training step, on every host. *)
Theorem zero_gc_period_stops_after_first_step
  (FLAGS : Main.Flags) (host_id restored_step : Z) (batches : nat) :
  Main.gc_every FLAGS = 0%Z ->
  (restored_step < Main.max_steps FLAGS)%Z ->
  (0 < batches)%nat ->
  Main.loop FLAGS host_id restored_step batches
  = ([Main.ptrain_step (restored_step + 1)], inl Main.ZeroDivisionError).
Proof.
  intros Hgc Hlt Hb. unfold Main.loop. rewrite loop_steps.
  destruct (Nat.min batches (Z.to_nat (Main.max_steps FLAGS - restored_step)))
    as [|n] eqn:En; [lia|].
  cbn [Main.count_from Main.for_each]. unfold Main.body, Main.py_mod.
  rewrite Hgc. reflexivity.
Qed.

(** X15: with [save_every = 0] a host other than 0 trains every step and
    raises [ZeroDivisionError] only after the loop, having saved nothing. *)
Theorem zero_save_period_fails_other_hosts_after_training
  (FLAGS : Main.Flags) (host_id restored_step : Z) (batches : nat) :
  host_id <> 0%Z ->
  Main.gc_every FLAGS <> 0%Z ->
  Main.save_every FLAGS = 0%Z ->
  exists log,
    Main.loop FLAGS host_id restored_step batches
    = (log, inl Main.ZeroDivisionError)
    /\ Main.trained log
       = firstn batches
           (Main.py_range (restored_step + 1) (Main.max_steps FLAGS + 1))
    /\ Main.saved log = [].
Proof.
  intros Hhost Hgc Hsave. unfold Main.loop. rewrite loop_steps.
  set (n := Nat.min batches (Z.to_nat (Main.max_steps FLAGS - restored_step))).
  destruct (for_each_completes FLAGS host_id Hgc
              (fun H => False_ind _ (Hhost H)) n
              {| Main.state_step := restored_step; Main.stats_trace := [] |})
    as [log [trace [E [T [_ [S _]]]]]].
  cbn [Main.state_step Main.stats_trace] in E, T, S. rewrite E.
  cbn [Main.bind]. unfold Main.py_mod. rewrite Hsave. cbn.
  destruct (Z.eqb_spec host_id 0) as [|_]; [contradiction|].
  exists (log ++ []). rewrite app_nil_r. repeat split; auto.
Qed.

(** ** Further worked instances *)

Lemma coarse_only_rendering_ignores_second_key_witness :
  let hp := with_num_fine_samples sample_hyper 0 in
  (NerfModel.num_fine_samples hp <= 0)%Z
  /\ NerfModel.apply hp (0, 0)%Z (0, 1)%Z sample_rays
     = NerfModel.apply hp (0, 0)%Z (5, 5)%Z sample_rays.
Proof.
  cbv zeta.
  assert (H : (NerfModel.num_fine_samples (with_num_fine_samples sample_hyper 0)
               <= 0)%Z) by (cbn; lia).
  split; [exact H|].
  exact (coarse_only_rendering_ignores_second_key _ (0, 0)%Z (0, 1)%Z (5, 5)%Z
           sample_rays H).
Defined.

Lemma fine_pass_leaves_coarse_result_alone_witness :
  exists ret,
    returned (run (spec_handler sample_ext)
                (NerfModel.apply sample_hyper (0, 0)%Z (0, 1)%Z sample_rays))
    = Some ret
    /\ returned (run (spec_handler sample_ext)
                   (NerfModel.apply (with_num_fine_samples sample_hyper 0)
                      (0, 0)%Z (5, 5)%Z sample_rays))
       = Some (firstn 1 ret).
Proof.
  destruct (apply_returns_if_sampler_answers sample_ext sample_hyper
              (0, 0)%Z (0, 1)%Z sample_rays) as [ret Hret].
  { intros key. apply linear_sampler_answers. }
  assert (H : returned (run (spec_handler sample_ext)
                          (NerfModel.apply sample_hyper (0, 0)%Z (0, 1)%Z
                             sample_rays)) = Some ret)
    by (rewrite Hret; reflexivity).
  exists ret. split; [exact H|].
  exact (fine_pass_leaves_coarse_result_alone _ _ _ _ (5, 5)%Z _ _ H).
Defined.

Lemma wide_rays_split_without_loss_witness :
  (6 < shape_last 1 sample_rays_ndc)%nat
  /\ zip_with (@app R) (NerfModel.ray_part sample_rays_ndc)
       (NerfModel.view_part sample_rays_ndc)
     = sample_rays_ndc.
Proof.
  assert (H : (6 < shape_last 1 sample_rays_ndc)%nat) by (cbn; lia).
  split; [exact H | exact (wide_rays_split_without_loss _ H)].
Defined.

Lemma renderer_direction_width_witness :
  let rays := [[0; 0; 0; 0; 0; 2; 1]] in
  rays <> []
  /\ Forall (fun r => length r = 7%nat) rays
  /\ Forall (fun d => length d = 1%nat)
       (slice_last (Some 3%Z) (Some 6%Z) (NerfModel.ray_part rays)).
Proof.
  cbv zeta.
  assert (H1 : [[0; 0; 0; 0; 0; 2; 1]] <> []) by discriminate.
  assert (H2 : Forall (fun r : list R => length r = 7%nat)
                 [[0; 0; 0; 0; 0; 2; 1]]).
  { constructor; [reflexivity | constructor]. }
  split; [exact H1|]. split; [exact H2|].
  exact (proj1 (proj2 (renderer_direction_width _ 7 H1 H2))).
Defined.

Lemma probe_decides_range_of_monotone_activations_witness :
  sample_nn (FLAGS.net_activation sample_flags) = Some (fun x => Rmax 0 x)
  /\ sample_nn (FLAGS.rgb_activation sample_flags)
     = Some (fun x => / (1 + exp (- x)))
  /\ sample_nn (FLAGS.sigma_activation sample_flags)
     = Some (fun x => Rmax 0 x)
  /\ ((forall x, - exp 90 <= x <= exp 90 ->
                 0 <= / (1 + exp (- x)) <= 1 /\ 0 <= Rmax 0 x) ->
      exists hp, nerf sample_nn (0, 0)%Z sample_flags = inr hp).
Proof.
  split; [reflexivity|]. split; [reflexivity|]. split; [reflexivity|].
  exact (proj1 (probe_decides_range_of_monotone_activations sample_nn (0, 0)%Z
                  sample_flags _ _ _ eq_refl eq_refl eq_refl)).
Defined.

Lemma mse_vanishes_exactly_on_a_match_witness :
  let rgb := [[1; 0; 0]] in
  let pixels := [[1; 0; 0; 1]] in
  compared rgb pixels <> []
  /\ 0 <= Train.mse rgb pixels.
Proof.
  cbv zeta.
  assert (H : compared [[1; 0; 0]] [[1; 0; 0; 1]] <> []).
  { change (compared [[1; 0; 0]] [[1; 0; 0; 1]])
      with [(1, 1); (0, 0); (0, 0)]. discriminate. }
  split; [exact H | exact (proj1 (mse_vanishes_exactly_on_a_match _ _ H))].
Defined.

Lemma objective_is_the_sum_of_the_reported_losses_witness :
  let batch := {| Train.rays := tt; Train.pixels := [[1; 0; 0; 1]] |} in
  let model := fun _ _ (_ : unit) => [([[1; 0; 0]], [0], [1])] in
  let total := Train.mse [[1; 0; 0]] [[1; 0; 0; 1]] + 0 in
  let stats := [stats_of (fun x => x) [[1; 0; 0; 1]] ([[1; 0; 0]], [0], [1])] in
  Train.loss_fn unit (fun x => x) (0, 0)%Z (0, 1)%Z batch model
  = inr (total, stats)
  /\ total = Rsum (map Train.loss stats).
Proof.
  cbv zeta.
  assert (H : Train.loss_fn unit (fun x => x) (0, 0)%Z (0, 1)%Z
                {| Train.rays := tt; Train.pixels := [[1; 0; 0; 1]] |}
                (fun _ _ (_ : unit) => [([[1; 0; 0]], [0], [1])])
              = inr (Train.mse [[1; 0; 0]] [[1; 0; 0; 1]] + 0,
                     [stats_of (fun x => x) [[1; 0; 0; 1]]
                        ([[1; 0; 0]], [0], [1])]))
    by (rewrite loss_fn_cases; reflexivity).
  split; [exact H|].
  exact (proj1 (objective_is_the_sum_of_the_reported_losses _ _ _ _ _ _ _ _ H)).
Defined.

Lemma loss_ignores_channels_beyond_the_third_witness :
  let rgb := [[1; 0; 0]] in
  let pixels := [[1; 0; 0]] in
  let extra := [[1]] in
  length extra = length pixels
  /\ Forall (fun r => (3 <= length r)%nat) pixels
  /\ Train.mse rgb (zip_with (@app R) pixels extra) = Train.mse rgb pixels.
Proof.
  cbv zeta.
  assert (H1 : length [[1]] = length [[1; 0; 0]]) by reflexivity.
  assert (H2 : Forall (fun r : list R => (3 <= length r)%nat) [[1; 0; 0]]).
  { constructor; [cbn; lia | constructor]. }
  split; [exact H1|]. split; [exact H2|].
  exact (loss_ignores_channels_beyond_the_third [[1; 0; 0]] _ _ H1 H2).
Defined.

Lemma first_host_saves_multiples_and_the_last_state_witness :
  Main.gc_every sample_loop_flags <> 0%Z
  /\ Main.print_every sample_loop_flags <> 0%Z
  /\ Main.save_every sample_loop_flags <> 0%Z
  /\ exists log,
       Main.loop sample_loop_flags 0 0 20 = (log, inr tt)
       /\ Main.saved log = [4; 8; 10]%Z.
Proof.
  assert (H1 : Main.gc_every sample_loop_flags <> 0%Z) by discriminate.
  assert (H2 : Main.print_every sample_loop_flags <> 0%Z) by discriminate.
  assert (H3 : Main.save_every sample_loop_flags <> 0%Z) by discriminate.
  split; [exact H1|]. split; [exact H2|]. split; [exact H3|].
  destruct (first_host_saves_multiples_and_the_last_state sample_loop_flags 0
              20 H1 H2 H3) as [log [E [_ [S _]]]].
  exists log. split; [exact E | exact S].
Defined.

Lemma other_hosts_write_only_the_closing_checkpoint_witness :
  (1 <> 0)%Z
  /\ Main.gc_every sample_loop_flags <> 0%Z
  /\ Main.save_every sample_loop_flags <> 0%Z
  /\ exists log,
       Main.loop sample_loop_flags 1 0 20 = (log, inr tt)
       /\ Main.summarized log = []
       /\ Main.saved log = [10%Z].
Proof.
  assert (H0 : (1 <> 0)%Z) by discriminate.
  assert (H1 : Main.gc_every sample_loop_flags <> 0%Z) by discriminate.
  assert (H3 : Main.save_every sample_loop_flags <> 0%Z) by discriminate.
  split; [exact H0|]. split; [exact H1|]. split; [exact H3|].
  destruct (other_hosts_write_only_the_closing_checkpoint sample_loop_flags 1 0
              20 H0 H1 H3) as [log [E [_ [_ [N S]]]]].
  exists log. split; [exact E |]. split; [exact N | exact S].
Defined.

Lemma summaries_average_each_step_once_witness :
  Main.gc_every sample_loop_flags <> 0%Z
  /\ Main.print_every sample_loop_flags <> 0%Z
  /\ Main.save_every sample_loop_flags <> 0%Z
  /\ exists log,
       Main.loop sample_loop_flags 0 0 20 = (log, inr tt)
       /\ Main.averaged log = Main.trained log.
Proof.
  assert (H1 : Main.gc_every sample_loop_flags <> 0%Z) by discriminate.
  assert (H2 : Main.print_every sample_loop_flags <> 0%Z) by discriminate.
  assert (H3 : Main.save_every sample_loop_flags <> 0%Z) by discriminate.
  split; [exact H1|]. split; [exact H2|]. split; [exact H3|].
  destruct (summaries_average_each_step_once sample_loop_flags 0 20 H1 H2 H3)
    as [log [E [_ A]]].
  exists log. split; [exact E |].
  apply A; [cbn; lia | cbn; lia | reflexivity].
Defined.

Lemma zero_gc_period_stops_after_first_step_witness :
  let flags :=
    {| Main.max_steps := 10; Main.gc_every := 0; Main.render_every := 0;
       Main.print_every := 2; Main.save_every := 4 |} in
  Main.gc_every flags = 0%Z
  /\ (0 < Main.max_steps flags)%Z
  /\ (0 < 20)%nat
  /\ Main.loop flags 0 0 20
     = ([Main.ptrain_step 1], inl Main.ZeroDivisionError).
Proof.
  cbv zeta. split; [reflexivity|]. split; [cbn; lia|]. split; [lia|].
  exact (zero_gc_period_stops_after_first_step
           {| Main.max_steps := 10; Main.gc_every := 0; Main.render_every := 0;
              Main.print_every := 2; Main.save_every := 4 |}
           0 0 20 eq_refl ltac:(cbn; lia) ltac:(lia)).
Defined.

Lemma zero_save_period_fails_other_hosts_after_training_witness :
  let flags :=
    {| Main.max_steps := 10; Main.gc_every := 5; Main.render_every := 0;
       Main.print_every := 2; Main.save_every := 0 |} in
  (1 <> 0)%Z
  /\ Main.gc_every flags <> 0%Z
  /\ Main.save_every flags = 0%Z
  /\ exists log,
       Main.loop flags 1 0 20 = (log, inl Main.ZeroDivisionError)
       /\ Main.trained log = [1; 2; 3; 4; 5; 6; 7; 8; 9; 10]%Z.
Proof.
  cbv zeta.
  assert (H0 : (1 <> 0)%Z) by discriminate.
  split; [exact H0|]. split; [discriminate|]. split; [reflexivity|].
  destruct (zero_save_period_fails_other_hosts_after_training
              {| Main.max_steps := 10; Main.gc_every := 5;
                 Main.render_every := 0; Main.print_every := 2;
                 Main.save_every := 0 |}
              1 0 20 H0 ltac:(discriminate) eq_refl) as [log [E [T _]]].
  exists log. split; [exact E | exact T].
Defined.
